(** * GlobeMap: highlight store, renderer and navigation engine

    A shallow embedding of [src/GlobeMap.js].  The class [GlobeMap] keeps its
    state in instance fields and mutates them from its methods; here the
    fields are a record [Globe] and every method is a computation in a small
    state-and-exception monad over that record.

    Conventions of the embedding:
    - a JavaScript number is a rational [Q]; [===] on numbers is [Qeq_bool];
      the IEEE special values are outside the model, which only matters where
      the code divides (see [calculateZoomLevelForFullscreenCountry]);
    - a JavaScript string is a [string]; [toLowerCase] folds the ASCII
      letters;
    - an object literal used as a table is the list of its own keys and
      values; the properties every object inherits from [Object.prototype]
      are outside the model, which only matters for a name that is one of
      them (see [inherited_keys] and [own_keys_only]);
    - a value that is an object or [undefined] is an [option], [None] being
      [undefined];
    - the 2D context is the list of the calls it received, oldest first;
      [console.log] likewise appends to a list of messages;
    - d3 and the boundary dataset are not part of the repository: they are
      the operations of the classes [D3] and [Atlas]; the session behind
      d3's [transition()] is modelled from the spec (see [transition] and
      [frame]);
    - the record describes a globe on which [init()] has run, so the canvas
      context and the projection exist;
    - the fields of the objects are prefixed where two objects have a field
      of the same name: [properties_id] and [entry_id], [properties_name]
      and [entry_name]. *)

From Stdlib Require Import String Ascii List Bool Arith QArith Qminmax Lia RelationClasses.
Import ListNotations.

Set Implicit Arguments.
Open Scope string_scope.
Open Scope list_scope.

(** ** JavaScript primitives *)

(** [String.prototype.toLowerCase], on the ASCII letters. *)
Definition lower_ascii (c : ascii) : ascii :=
  let n := nat_of_ascii c in
  if (65 <=? n)%nat && (n <=? 90)%nat then ascii_of_nat (n + 32) else c.

Fixpoint toLowerCase (s : string) : string :=
  match s with
  | EmptyString => EmptyString
  | String c rest => String (lower_ascii c) (toLowerCase rest)
  end.

(** [a < b] on numbers. *)
Definition Qlt_bool (a b : Q) : bool := negb (Qle_bool b a).

(** [Array.prototype.splice(i, 1)]: the array without its element at [i]. *)
Definition splice1 {A : Type} (i : nat) (l : list A) : list A :=
  firstn i l ++ skipn (S i) l.

(** Index of the first element satisfying [p], as a [for] loop that breaks
    at the first hit finds it. *)
Fixpoint findIndex {A : Type} (p : A -> bool) (l : list A) : option nat :=
  match l with
  | [] => None
  | x :: rest => if p x then Some O else option_map S (findIndex p rest)
  end.

(** Lookup of an own key in an object literal used as a table.  For a key
    of [inherited_keys] the code's [table[key]] finds the inherited property
    where [lookup] finds nothing. *)
Fixpoint lookup {A : Type} (key : string) (table : list (string * A)) : option A :=
  match table with
  | [] => None
  | (k, v) :: rest => if String.eqb k key then Some v else lookup key rest
  end.

(** The names of the properties an object literal inherits from
    [Object.prototype].  With one of them as the key, [table[key]] is the
    inherited function (or, for [__proto__], the prototype) and not
    [undefined]. *)
Definition inherited_keys : list string :=
  [ "constructor"; "hasOwnProperty"; "isPrototypeOf"; "propertyIsEnumerable";
    "toLocaleString"; "toString"; "valueOf"; "__proto__";
    "__defineGetter__"; "__defineSetter__"; "__lookupGetter__"; "__lookupSetter__" ].

(** ** Data *)

(** A position [lon, lat], also used for a rotation [lambda, phi]. *)
Definition Position : Type := (Q * Q)%type.

(** A country feature of the boundary dataset: [properties.id],
    [properties.name] and its polygon rings. *)
Record Feature := {
  properties_id : string;
  properties_name : string;
  geometry : list (list Position)
}.

(** What the code hands to [geoPath] and to [fitExtent]. *)
Inductive GeoObject :=
| Sphere
| FeatureCollection (features : list Feature)
| FeatureObject (feature : Feature)
| MultiLineString (lines : list (list Position)).

(** One of [settings.land], [settings.borders], [settings.globe];
    [fillStyle] is [None] for [null]. *)
Record Style := {
  fillStyle : option string;
  strokeStyle : string;
  strokeWidth : Q
}.

Record Settings := {
  highlightColor : string;
  land : Style;
  borders : Style;
  globe : Style
}.

(** The defaults of the constructor. *)
Definition defaultSettings : Settings := {|
  highlightColor := "#F90";
  land := {| fillStyle := Some "#CCC"; strokeStyle := "#000"; strokeWidth := 0 |};
  borders := {| fillStyle := None; strokeStyle := "#FFF"; strokeWidth := 1 |};
  globe := {| fillStyle := None; strokeStyle := "#CCC"; strokeWidth := 1.5 |}
|}.

(** An element of [this.highlightedCountries]: [{id, name, color, geojson}]. *)
Record HighlightEntry := {
  entry_id : string;
  entry_name : string;
  entry_color : string;
  entry_geojson : Feature
}.

(** The part of the d3 projection the code reads and writes. *)
Record Projection := {
  rotate : Position;
  scale : Q
}.

Record BoundingBox := {
  width : Q;
  height : Q
}.

Definition Extent : Type := (Position * Position)%type.

(** A call received by the 2D context.  [path p o] stands for the drawing
    calls [geoPath(projection, context)(o)] issues under projection [p]. *)
Inductive CanvasCall :=
| clearRect (x y w h : Q)
| beginPath
| path (p : Projection) (o : GeoObject)
| set_fillStyle (v : option string)
| set_strokeStyle (v : string)
| set_lineWidth (v : Q)
| fill
| stroke.

(** The values a [zoom] argument takes. *)
Inductive ZoomValue :=
| zoom_undefined
| zoom_null
| zoom_auto
| zoom_number (z : Q).

(** The function a tween factory returns, [t => {...}], by the interpolators
    it closes over: each is the pair of end points given to [geoInterpolate]
    or [interpolate], or [None] when the closure has none. *)
Record Tween := {
  interpolateRotation : option (Position * Position);
  interpolationScale : option (Q * Q)
}.

(** The function given to [.tween(name, factory)], by what it closes over. *)
Inductive TweenFactory :=
| centerOnCountry_factory (countryGeoJson : Feature) (zoom : ZoomValue) (offsetX offsetY : Q)
| zoom_factory (interpolationScale : Q * Q).

Inductive SessionState :=
| Scheduled (factory : TweenFactory)
| Started (tween : Tween).

Record Session := {
  session_id : nat;
  session_state : SessionState
}.

(** The instance fields of a [GlobeMap], the two sinks it writes to, and the
    animation session (see [transition]). *)
Record Globe := {
  settings : Settings;
  holderBoundingBox : BoundingBox;
  highlightedCountries : list HighlightEntry;
  zoom : Q;
  zoomedCountry : option string;
  projection : Projection;
  baseProjectionScale : Q;
  canvasContext : list CanvasCall;
  console : list string;
  session : option Session;
  nextSession : nat
}.

Definition set_holderBoundingBox (v : BoundingBox) (g : Globe) : Globe :=
  {| settings := settings g; holderBoundingBox := v;
     highlightedCountries := highlightedCountries g; zoom := zoom g;
     zoomedCountry := zoomedCountry g; projection := projection g;
     baseProjectionScale := baseProjectionScale g;
     canvasContext := canvasContext g; console := console g;
     session := session g; nextSession := nextSession g |}.

Definition set_highlightedCountries (v : list HighlightEntry) (g : Globe) : Globe :=
  {| settings := settings g; holderBoundingBox := holderBoundingBox g;
     highlightedCountries := v; zoom := zoom g;
     zoomedCountry := zoomedCountry g; projection := projection g;
     baseProjectionScale := baseProjectionScale g;
     canvasContext := canvasContext g; console := console g;
     session := session g; nextSession := nextSession g |}.

Definition set_zoom (v : Q) (g : Globe) : Globe :=
  {| settings := settings g; holderBoundingBox := holderBoundingBox g;
     highlightedCountries := highlightedCountries g; zoom := v;
     zoomedCountry := zoomedCountry g; projection := projection g;
     baseProjectionScale := baseProjectionScale g;
     canvasContext := canvasContext g; console := console g;
     session := session g; nextSession := nextSession g |}.

Definition set_zoomedCountry (v : option string) (g : Globe) : Globe :=
  {| settings := settings g; holderBoundingBox := holderBoundingBox g;
     highlightedCountries := highlightedCountries g; zoom := zoom g;
     zoomedCountry := v; projection := projection g;
     baseProjectionScale := baseProjectionScale g;
     canvasContext := canvasContext g; console := console g;
     session := session g; nextSession := nextSession g |}.

Definition set_projection (v : Projection) (g : Globe) : Globe :=
  {| settings := settings g; holderBoundingBox := holderBoundingBox g;
     highlightedCountries := highlightedCountries g; zoom := zoom g;
     zoomedCountry := zoomedCountry g; projection := v;
     baseProjectionScale := baseProjectionScale g;
     canvasContext := canvasContext g; console := console g;
     session := session g; nextSession := nextSession g |}.

Definition set_baseProjectionScale (v : Q) (g : Globe) : Globe :=
  {| settings := settings g; holderBoundingBox := holderBoundingBox g;
     highlightedCountries := highlightedCountries g; zoom := zoom g;
     zoomedCountry := zoomedCountry g; projection := projection g;
     baseProjectionScale := v;
     canvasContext := canvasContext g; console := console g;
     session := session g; nextSession := nextSession g |}.

Definition set_canvasContext (v : list CanvasCall) (g : Globe) : Globe :=
  {| settings := settings g; holderBoundingBox := holderBoundingBox g;
     highlightedCountries := highlightedCountries g; zoom := zoom g;
     zoomedCountry := zoomedCountry g; projection := projection g;
     baseProjectionScale := baseProjectionScale g;
     canvasContext := v; console := console g;
     session := session g; nextSession := nextSession g |}.

Definition set_console (v : list string) (g : Globe) : Globe :=
  {| settings := settings g; holderBoundingBox := holderBoundingBox g;
     highlightedCountries := highlightedCountries g; zoom := zoom g;
     zoomedCountry := zoomedCountry g; projection := projection g;
     baseProjectionScale := baseProjectionScale g;
     canvasContext := canvasContext g; console := v;
     session := session g; nextSession := nextSession g |}.

Definition set_session (v : option Session) (n : nat) (g : Globe) : Globe :=
  {| settings := settings g; holderBoundingBox := holderBoundingBox g;
     highlightedCountries := highlightedCountries g; zoom := zoom g;
     zoomedCountry := zoomedCountry g; projection := projection g;
     baseProjectionScale := baseProjectionScale g;
     canvasContext := canvasContext g; console := console g;
     session := v; nextSession := n |}.

(** ** External collaborators *)

(** The boundary dataset and the region table, both imported constants:
    [countriesGeoJson] is the feature list of [WORLD_ATLAS], [bordersGeoJson]
    its mesh, [REGION_COUNTRY_MAP] the table from a region name to the names
    of its countries. *)
Class Atlas := {
  countriesGeoJson : list Feature;
  bordersGeoJson : list (list Position);
  REGION_COUNTRY_MAP : list (string * list string)
}.

(** The d3 functions the code calls.  [geoCentroid] takes what the lookup
    returned, [None] being [undefined]; [geoInterpolate a b] and
    [interpolate a b] are functions of the progress [t];
    [fitExtentScale extent o] is
    [geoOrthographic().fitExtent(extent, o).scale()]. *)
Class D3 := {
  geoCentroid : option Feature -> Position;
  geoInterpolate : Position -> Position -> Q -> Position;
  interpolate : Q -> Q -> Q -> Q;
  fitExtentScale : Extent -> GeoObject -> Q
}.

(** Two rotations with equal numbers. *)
Definition same_rotation (a b : Position) : Prop :=
  fst a == fst b /\ snd a == snd b.

(** What the proofs about a finished animation use of d3: at progress 1 an
    interpolator is at its target. *)
Class D3Laws `{D3} : Prop := {
  geoInterpolate_end : forall a b t, t == 1 -> same_rotation (geoInterpolate a b t) b;
  interpolate_end : forall a b t, t == 1 -> interpolate a b t == b
}.

(** ** The monad of a method body *)

Inductive JsError :=
| TypeError (message : string).

(** How a call completes: it returns, or it throws. *)
Inductive Completion (A : Type) :=
| Normal (a : A)
| Throw (e : JsError).

Arguments Normal {A} a.
Arguments Throw {A} e.

Definition M (A : Type) : Type := Globe -> Completion A * Globe.

Definition ret {A : Type} (a : A) : M A := fun g => (Normal a, g).

Definition bind {A B : Type} (m : M A) (k : A -> M B) : M B :=
  fun g =>
    match m g with
    | (Normal a, g') => k a g'
    | (Throw e, g') => (Throw e, g')
    end.

Definition throw {A : Type} (e : JsError) : M A := fun g => (Throw e, g).

Definition get : M Globe := fun g => (Normal g, g).

Definition modify (f : Globe -> Globe) : M unit := fun g => (Normal tt, f g).

Declare Scope js_scope.
Delimit Scope js_scope with js.
Notation "x <- m ;; k" := (bind m (fun x => k))
  (at level 100, m at next level, right associativity) : js_scope.
Notation "m ;; k" := (bind m (fun _ => k))
  (at level 100, right associativity) : js_scope.
Open Scope js_scope.

(** A [for] loop over the elements of an array. *)
Fixpoint forEach {A : Type} (l : list A) (body : A -> M unit) : M unit :=
  match l with
  | [] => ret tt
  | x :: rest => body x ;; forEach rest body
  end.

Definition when (b : bool) (m : M unit) : M unit := if b then m else ret tt.

(** The state a computation ends in. *)
Definition exec {A : Type} (m : M A) (g : Globe) : Globe := snd (m g).

(** A call on the 2D context. *)
Definition context (c : CanvasCall) : M unit :=
  modify (fun g => set_canvasContext (canvasContext g ++ [c]) g).

Definition console_log (message : string) : M unit :=
  modify (fun g => set_console (console g ++ [message]) g).

(** ** The methods of [GlobeMap] *)

Section Model.

Context `{Atlas} `{D3}.

(** [topojson.feature(WORLD_ATLAS, ...)]: the collection whose [features]
    are [countriesGeoJson]. *)
Definition landGeoJson : GeoObject := FeatureCollection countriesGeoJson.

(** A fresh [geoOrthographic()]: no rotation, d3's default scale. *)
Definition geoOrthographic : Projection := {| rotate := (0, 0); scale := 249.5 |}.

Definition is_null (v : option string) : bool :=
  match v with
  | None => true
  | Some _ => false
  end.

(** [render()] *)
Definition render : M unit :=
  g <- get ;;
  let width := width (holderBoundingBox g) in
  let height := height (holderBoundingBox g) in
  let geoPath := fun o => context (path (projection g) o) in
  context (clearRect 0 0 width height) ;;
  (* First draw the basic sphere of the world. *)
  context beginPath ;;
  geoPath Sphere ;;
  context (set_fillStyle (fillStyle (globe (settings g)))) ;;
  context (set_strokeStyle (strokeStyle (globe (settings g)))) ;;
  context (set_lineWidth (strokeWidth (globe (settings g)))) ;;
  context stroke ;;
  when (negb (is_null (fillStyle (globe (settings g))))) (context fill) ;;
  (* Draw the outline of the continents. *)
  context beginPath ;;
  geoPath landGeoJson ;;
  context (set_fillStyle (fillStyle (land (settings g)))) ;;
  context (set_strokeStyle (strokeStyle (land (settings g)))) ;;
  context (set_lineWidth (strokeWidth (land (settings g)))) ;;
  context fill ;;
  when (Qlt_bool 0 (strokeWidth (land (settings g)))) (context stroke) ;;
  (* Draw the highlighted countries. *)
  forEach (highlightedCountries g) (fun country =>
    context beginPath ;;
    geoPath (FeatureObject (entry_geojson country)) ;;
    context (set_fillStyle (Some (entry_color country))) ;;
    context fill) ;;
  (* Draw the country borders over everything. *)
  context beginPath ;;
  geoPath (MultiLineString bordersGeoJson) ;;
  context (set_strokeStyle (strokeStyle (borders (settings g)))) ;;
  context (set_lineWidth (strokeWidth (borders (settings g)))) ;;
  context stroke.

(** [setupProjection()] *)
Definition setupProjection : M unit :=
  g <- get ;;
  let w := width (holderBoundingBox g) in
  let h := height (holderBoundingBox g) in
  let left := w - w * zoom g in
  let top := h - h * zoom g in
  modify (set_projection
    {| rotate := rotate geoOrthographic;
       scale := fitExtentScale ((left, top), (w * zoom g, h * zoom g)) Sphere |}) ;;
  modify (set_baseProjectionScale (fitExtentScale ((0, 0), (w, h)) Sphere)).

(** [getCountryGeoJson(countryName)]: the first feature whose lowercased
    name is the lowercased argument, [None] for the [undefined] that
    [Array.prototype.find] returns on a miss. *)
Definition getCountryGeoJson (countryName : string) : option Feature :=
  let countryName := toLowerCase countryName in
  find (fun country => String.eqb (toLowerCase (properties_name country)) countryName)
       countriesGeoJson.

(** [isCountryHighlighted(countryName)] *)
Definition isCountryHighlighted (countryName : string) (g : Globe) : bool :=
  let countryGeoJson := getCountryGeoJson countryName in
  match countryGeoJson with
  | Some feature =>
      let result :=
        find (fun obj => String.eqb (entry_id obj) (properties_id feature))
             (highlightedCountries g) in
      match result with
      | None => false
      | Some _ => true
      end
  | None => true
  end.

(** [v !== null] for a value [Array.prototype.find] returned: such a value is
    an element or [undefined], and neither is [null]. *)
Definition strict_ne_null (v : option Feature) : bool := true.

(** [a || b] for a string [a] that may be [undefined]. *)
Definition or_string (a : option string) (b : string) : string :=
  match a with
  | None | Some "" => b
  | Some s => s
  end.

(** [highlightCountry(countryName, color, render = true)] *)
Definition highlightCountry (countryName : string) (color : option string)
    (render_ : bool) : M unit :=
  let countryGeoJson := getCountryGeoJson countryName in
  if strict_ne_null countryGeoJson then
    g <- get ;;
    if Bool.eqb (isCountryHighlighted countryName g) false then
      match countryGeoJson with
      | None => throw (TypeError "Cannot read property 'properties' of undefined")
      | Some feature =>
          modify (fun g => set_highlightedCountries
            (highlightedCountries g ++
             [{| entry_id := properties_id feature;
                 entry_name := toLowerCase countryName;
                 entry_color := or_string color (highlightColor (settings g));
                 entry_geojson := feature |}]) g) ;;
          when render_ render
      end
    else ret tt
  else
    console_log ("No iso code was found for " ++ countryName ++ " so cannot highlight it.")%string.

(** [unhighlightCountry(name, render = true)] *)
Definition unhighlightCountry (name : string) (render_ : bool) : M unit :=
  g <- get ;;
  match findIndex (fun highlightedCountry =>
                     String.eqb (entry_name highlightedCountry) (toLowerCase name))
                  (highlightedCountries g) with
  | Some i =>
      modify (fun g => set_highlightedCountries (splice1 i (highlightedCountries g)) g) ;;
      when render_ render
  | None => ret tt
  end.

(** [highlightRegion(regionName, color)] *)
Definition highlightRegion (regionName : string) (color : option string) : M unit :=
  match lookup regionName REGION_COUNTRY_MAP with
  | Some countries =>
      forEach countries (fun country => highlightCountry country color false) ;;
      render
  | None =>
      console_log ("The region of " ++ regionName ++ " was not found in the continent list")%string
  end.

(** [unhighlightRegion(regionName)] *)
Definition unhighlightRegion (regionName : string) : M unit :=
  match lookup regionName REGION_COUNTRY_MAP with
  | Some countries =>
      forEach countries (fun country => unhighlightCountry country false) ;;
      render
  | None =>
      console_log ("The region of " ++ regionName ++ " was not found in the continent list")%string
  end.

(** [highlight(name, color)]; an array, even an empty one, is truthy. *)
Definition highlight (name : string) (color : option string) : M unit :=
  match lookup name REGION_COUNTRY_MAP with
  | Some _ => highlightRegion name color
  | None => highlightCountry name color true
  end.

(** [unhighlight(name)] *)
Definition unhighlight (name : string) : M unit :=
  match lookup name REGION_COUNTRY_MAP with
  | Some _ => unhighlightRegion name
  | None => unhighlightCountry name true
  end.

(** The table [predefinedFillZoomLevels]. *)
Definition predefinedFillZoomLevels : list (string * Q) :=
  [ ("australia", 2.5); ("germany", 14); ("ireland", 20);
    ("mexico", 3.8); ("sweden", 8); ("united states", 2) ].

(** [calculateZoomLevelForFullscreenCountry(countryName, countryGeoJson)].
    The table is consulted with the name as it was passed; an entry counts
    when its value is truthy, that is not zero.  The quotient agrees with
    JavaScript's when [baseProjectionScale] is not zero; at a base scale of
    zero the code computes [NaN] or [Infinity], which are outside the
    model. *)
Definition calculateZoomLevelForFullscreenCountry (countryName : string)
    (countryGeoJson : Feature) (g : Globe) : Q :=
  let computed :=
    let tempProjectionScale :=
      fitExtentScale ((0, 0), (width (holderBoundingBox g), height (holderBoundingBox g)))
                     (FeatureObject countryGeoJson) in
    let correctionFactor := 0.65 in
    (tempProjectionScale / baseProjectionScale g) * correctionFactor in
  let zoomlevel :=
    match lookup countryName predefinedFillZoomLevels with
    | Some v => if Qeq_bool v 0 then computed else v
    | None => computed
    end in
  if Qlt_bool zoomlevel 1 then 1 else zoomlevel.

(** Modelled from the spec: the animation session behind
    [transition().duration(1250).tween(name, factory)].  d3-transition is not
    part of the repository; the spec describes its effect as one active
    session per globe: a new request overwrites the active session identity
    and is not queued, and a callback of a session that is no longer the
    active one is ignored.  [transition factory] registers the request under
    a fresh identity. *)
Definition transition (factory : TweenFactory) : M unit :=
  modify (fun g =>
    set_session (Some {| session_id := nextSession g; session_state := Scheduled factory |})
                (S (nextSession g)) g).

(** The body of a tween factory: the function passed to [.tween] in
    [zoomOnCountry], and the one in [setZoom], which only returns the step
    over the interpolator [setZoom] built. *)
Definition run_factory (factory : TweenFactory) : M Tween :=
  match factory with
  | centerOnCountry_factory countryGeoJson zoom_ offsetX offsetY =>
      g <- get ;;
      let (x, y) := geoCentroid (Some countryGeoJson) in
      let rotation := (rotate (projection g), (- x - offsetX, - y - offsetY)) in
      match zoom_ with
      | zoom_number z =>
          let newScale := baseProjectionScale g * z in
          modify (set_zoom z) ;;
          ret {| interpolateRotation := Some rotation;
                 interpolationScale := Some (scale (projection g), newScale) |}
      | _ =>
          ret {| interpolateRotation := Some rotation; interpolationScale := None |}
      end
  | zoom_factory scale_ =>
      ret {| interpolateRotation := None; interpolationScale := Some scale_ |}
  end.

(** The step [t => {...}] a factory returned, at progress [t]. *)
Definition step (tween : Tween) (t : Q) : M unit :=
  match interpolateRotation tween with
  | Some (a, b) =>
      modify (fun g => set_projection
        {| rotate := geoInterpolate a b t; scale := scale (projection g) |} g)
  | None => ret tt
  end ;;
  match interpolationScale tween with
  | Some (a, b) =>
      modify (fun g => set_projection
        {| rotate := rotate (projection g); scale := interpolate a b t |} g)
  | None => ret tt
  end ;;
  render.

(** Modelled from the spec: one animation callback of session [id] at
    progress [t], the part of d3-transition that calls the factory and the
    steps.  A callback of a session that is not the active one is ignored.
    The first callback of a session runs its factory; every callback runs the
    step; the callback at progress 1 is the last one of its session. *)
Definition frame (id : nat) (t : Q) : M unit :=
  g <- get ;;
  match session g with
  | Some s =>
      if Nat.eqb (session_id s) id then
        tween <- match session_state s with
                 | Scheduled factory => run_factory factory
                 | Started tween => ret tween
                 end ;;
        modify (fun g =>
          set_session (if Qeq_bool t 1 then None
                       else Some {| session_id := id; session_state := Started tween |})
                      (nextSession g) g) ;;
        step tween t
      else ret tt
  | None => ret tt
  end.

(** A parameter with the default value 0. *)
Definition or_zero (v : option Q) : Q :=
  match v with
  | Some q => q
  | None => 0
  end.

(** [zoomOnCountry(countryName, zoom = 'auto', offsetX = 0, offsetY = 0)] *)
Definition zoomOnCountry (countryName : string) (zoom_ : ZoomValue)
    (offsetX offsetY : option Q) : M unit :=
  let zoom_ := match zoom_ with zoom_undefined => zoom_auto | _ => zoom_ end in
  let offsetX := or_zero offsetX in
  let offsetY := or_zero offsetY in
  let countryGeoJson := getCountryGeoJson countryName in
  match countryGeoJson with
  | Some feature =>
      modify (set_zoomedCountry (Some countryName)) ;;
      g <- get ;;
      let zoom_ :=
        match zoom_ with
        | zoom_auto =>
            zoom_number (calculateZoomLevelForFullscreenCountry countryName feature g)
        | _ => zoom_
        end in
      transition (centerOnCountry_factory feature zoom_ offsetX offsetY)
  | None =>
      console_log ("No iso code was found for " ++ countryName ++ " so cannot zoom on it.")%string
  end.

(** [setZoom(zoom = null)] *)
Definition setZoom (zoom_ : ZoomValue) : M unit :=
  g <- get ;;
  match zoom_ with
  | zoom_number z =>
      if negb (Qeq_bool z (zoom g)) then
        let newScale := baseProjectionScale g * z in
        modify (set_zoom z) ;;
        let interpolationScale := (scale (projection g), newScale) in
        transition (zoom_factory interpolationScale)
      else ret tt
  | _ => ret tt
  end.

(** [resetZoom()] *)
Definition resetZoom : M unit := setZoom (zoom_number 1).

(** [zoomlevel || d] *)
Definition or_zoom (zoomlevel : ZoomValue) (d : Q) : ZoomValue :=
  match zoomlevel with
  | zoom_undefined | zoom_null => zoom_number d
  | zoom_auto => zoom_auto
  | zoom_number z => if Qeq_bool z 0 then zoom_number d else zoom_number z
  end.

(** The region shortcuts. *)
Definition zoomOnAfrica (zoomlevel : ZoomValue) (offsetX offsetY : option Q) : M unit :=
  zoomOnCountry "central african republic" (or_zoom zoomlevel 1.5)
    (Some (0 + or_zero offsetX)) (Some (-2 + or_zero offsetY)).

Definition zoomOnAntarctica (zoomlevel : ZoomValue) (offsetX offsetY : option Q) : M unit :=
  zoomOnCountry "antarctica" (or_zoom zoomlevel 2.1)
    (Some (or_zero offsetX)) (Some (or_zero offsetY)).

Definition zoomOnAsia (zoomlevel : ZoomValue) (offsetX offsetY : option Q) : M unit :=
  zoomOnCountry "india" (or_zoom zoomlevel 1.2)
    (Some (or_zero offsetX)) (Some (or_zero offsetY)).

Definition zoomOnAustraliaAndNewZealand (zoomlevel : ZoomValue) (offsetX offsetY : option Q) : M unit :=
  zoomOnCountry "australia" (or_zoom zoomlevel 1.8)
    (Some (10 + or_zero offsetX)) (Some (or_zero offsetY)).

Definition zoomOnEurope (zoomlevel : ZoomValue) (offsetX offsetY : option Q) : M unit :=
  zoomOnCountry "germany" (or_zoom zoomlevel 2.8)
    (Some (or_zero offsetX)) (Some (or_zero offsetY)).

Definition zoomOnMiddleEast (zoomlevel : ZoomValue) (offsetX offsetY : option Q) : M unit :=
  zoomOnCountry "iraq" (or_zoom zoomlevel 2.4)
    (Some (or_zero offsetX)) (Some (or_zero offsetY)).

Definition zoomOnNorthernAfrica (zoomlevel : ZoomValue) (offsetX offsetY : option Q) : M unit :=
  zoomOnCountry "niger" (or_zoom zoomlevel 2.4)
    (Some (or_zero offsetX)) (Some (or_zero offsetY)).

Definition zoomOnCaribbean (zoomlevel : ZoomValue) (offsetX offsetY : option Q) : M unit :=
  zoomOnCountry "cuba" (or_zoom zoomlevel 3.5)
    (Some (or_zero offsetX)) (Some (or_zero offsetY)).

Definition zoomOnCentralAsia (zoomlevel : ZoomValue) (offsetX offsetY : option Q) : M unit :=
  zoomOnCountry "uzbekistan" (or_zoom zoomlevel 3.5)
    (Some (or_zero offsetX)) (Some (or_zero offsetY)).

Definition zoomOnCentralAmerica (zoomlevel : ZoomValue) (offsetX offsetY : option Q) : M unit :=
  zoomOnCountry "honduras" (or_zoom zoomlevel 3.5)
    (Some (or_zero offsetX)) (Some (or_zero offsetY)).

Definition zoomOnEasternAsia (zoomlevel : ZoomValue) (offsetX offsetY : option Q) : M unit :=
  zoomOnCountry "china" (or_zoom zoomlevel 2)
    (Some (or_zero offsetX)) (Some (or_zero offsetY)).

Definition zoomOnEasternEurope (zoomlevel : ZoomValue) (offsetX offsetY : option Q) : M unit :=
  zoomOnCountry "romania" (or_zoom zoomlevel 5.4)
    (Some (or_zero offsetX)) (Some (or_zero offsetY)).

Definition zoomOnNorthAmerica (zoomlevel : ZoomValue) (offsetX offsetY : option Q) : M unit :=
  zoomOnCountry "united states" (or_zoom zoomlevel 1.4)
    (Some (or_zero offsetX)) (Some (or_zero offsetY)).

Definition zoomOnNorthernEurope (zoomlevel : ZoomValue) (offsetX offsetY : option Q) : M unit :=
  zoomOnCountry "sweden" (or_zoom zoomlevel 4.4)
    (Some (or_zero offsetX)) (Some (or_zero offsetY)).

Definition zoomOnSouthernAfrica (zoomlevel : ZoomValue) (offsetX offsetY : option Q) : M unit :=
  zoomOnCountry "botswana" (or_zoom zoomlevel 2.4)
    (Some (or_zero offsetX)) (Some (or_zero offsetY)).

Definition zoomOnSouthernAsia (zoomlevel : ZoomValue) (offsetX offsetY : option Q) : M unit :=
  zoomOnCountry "pakistan" (or_zoom zoomlevel 2.4)
    (Some (or_zero offsetX)) (Some (or_zero offsetY)).

Definition zoomOnSouthAmerica (zoomlevel : ZoomValue) (offsetX offsetY : option Q) : M unit :=
  zoomOnCountry "bolivia" (or_zoom zoomlevel 1.6)
    (Some (0 + or_zero offsetX)) (Some (-3.5 + or_zero offsetY)).

Definition zoomOnSouthernEurope (zoomlevel : ZoomValue) (offsetX offsetY : option Q) : M unit :=
  zoomOnCountry "italy" (or_zoom zoomlevel 4.4)
    (Some (-8 + or_zero offsetX)) (Some (or_zero offsetY)).

Definition zoomOnSouthEasternAsia (zoomlevel : ZoomValue) (offsetX offsetY : option Q) : M unit :=
  zoomOnCountry "indonesia" (or_zoom zoomlevel 2)
    (Some (-2 + or_zero offsetX)) (Some (or_zero offsetY)).

Definition zoomOnWesternAfrica (zoomlevel : ZoomValue) (offsetX offsetY : option Q) : M unit :=
  zoomOnCountry "burkina faso" (or_zoom zoomlevel 2.4)
    (Some (5 + or_zero offsetX)) (Some (or_zero offsetY)).

Definition zoomOnWesternEurope (zoomlevel : ZoomValue) (offsetX offsetY : option Q) : M unit :=
  zoomOnCountry "belgium" (or_zoom zoomlevel 4.4)
    (Some (or_zero offsetX)) (Some (or_zero offsetY)).

(** The table [this.regionToZoomFunction]. *)
Definition regionToZoomFunction
    : list (string * (ZoomValue -> option Q -> option Q -> M unit)) :=
  [ ("africa", zoomOnAfrica);
    ("antarctica", zoomOnAntarctica);
    ("asia", zoomOnAsia);
    ("australia and new zealand", zoomOnAustraliaAndNewZealand);
    ("europe", zoomOnEurope);
    ("middle east", zoomOnMiddleEast);
    ("northern africa", zoomOnNorthernAfrica);
    ("caribbean", zoomOnCaribbean);
    ("central asia", zoomOnCentralAsia);
    ("central america", zoomOnCentralAmerica);
    ("eastern asia", zoomOnEasternAsia);
    ("eastern europe", zoomOnEasternEurope);
    ("north america", zoomOnNorthAmerica);
    ("northern europe", zoomOnNorthernEurope);
    ("southern africa", zoomOnSouthernAfrica);
    ("southern asia", zoomOnSouthernAsia);
    ("south america", zoomOnSouthAmerica);
    ("southern europe", zoomOnSouthernEurope);
    ("southeastern asia", zoomOnSouthEasternAsia);
    ("western africa", zoomOnWesternAfrica);
    ("western europe", zoomOnWesternEurope) ].

(** [zoomOn(name, zoom, offsetX, offsetY)] *)
Definition zoomOn (name : string) (zoom_ : ZoomValue) (offsetX offsetY : option Q) : M unit :=
  let name := toLowerCase name in
  match lookup name regionToZoomFunction with
  | Some zoomFunction => zoomFunction zoom_ offsetX offsetY
  | None => zoomOnCountry name zoom_ offsetX offsetY
  end.

(** [centerOnCountry(name)] *)
Definition centerOnCountry (name : string) : M unit :=
  g <- get ;;
  zoomOn name (zoom_number (zoom g)) None None.

(** [resize()]; [box] is what [getBoundingClientRect()] returns at the call. *)
Definition resize (box : BoundingBox) : M unit :=
  modify (set_holderBoundingBox box) ;;
  setupProjection ;;
  g <- get ;;
  match zoomedCountry g with
  | Some name =>
      let countryGeoJson := getCountryGeoJson name in
      let (x, y) := geoCentroid countryGeoJson in
      modify (set_projection
        {| rotate := (- x, - y); scale := baseProjectionScale g * zoom g |})
  | None => ret tt
  end ;;
  render.

(** [init()], after [setupLayers()] has created the canvas. *)
Definition init : M unit :=
  setupProjection ;;
  render.

(** A globe built with [customSettings], with no initial highlights, in a
    holder of size [box], on which [init()] has run.  The projection and the
    base scale written here are the ones [setupProjection] replaces. *)
Definition newGlobe (customSettings : Settings) (box : BoundingBox) : Globe :=
  exec init
    {| settings := customSettings;
       holderBoundingBox := box;
       highlightedCountries := [];
       zoom := 1;
       zoomedCountry := None;
       projection := geoOrthographic;
       baseProjectionScale := 0;
       canvasContext := [];
       console := [];
       session := None;
       nextSession := 0 |}.

(** What can happen to a globe: a call of a public method, a resize of the
    holder, an animation callback.  A region shortcut called directly is
    [call_zoomOn] with the name of its region. *)
Inductive Call :=
| call_render
| call_highlight (name : string) (color : option string)
| call_unhighlight (name : string)
| call_highlightCountry (countryName : string) (color : option string) (render_ : bool)
| call_unhighlightCountry (name : string) (render_ : bool)
| call_highlightRegion (regionName : string) (color : option string)
| call_unhighlightRegion (regionName : string)
| call_centerOnCountry (name : string)
| call_zoomOn (name : string) (zoom_ : ZoomValue) (offsetX offsetY : option Q)
| call_zoomOnCountry (countryName : string) (zoom_ : ZoomValue) (offsetX offsetY : option Q)
| call_setZoom (zoom_ : ZoomValue)
| call_resetZoom
| call_resize (box : BoundingBox)
| call_frame (id : nat) (t : Q).

Definition call (c : Call) : M unit :=
  match c with
  | call_render => render
  | call_highlight name color => highlight name color
  | call_unhighlight name => unhighlight name
  | call_highlightCountry countryName color render_ => highlightCountry countryName color render_
  | call_unhighlightCountry name render_ => unhighlightCountry name render_
  | call_highlightRegion regionName color => highlightRegion regionName color
  | call_unhighlightRegion regionName => unhighlightRegion regionName
  | call_centerOnCountry name => centerOnCountry name
  | call_zoomOn name zoom_ offsetX offsetY => zoomOn name zoom_ offsetX offsetY
  | call_zoomOnCountry countryName zoom_ offsetX offsetY =>
      zoomOnCountry countryName zoom_ offsetX offsetY
  | call_setZoom zoom_ => setZoom zoom_
  | call_resetZoom => resetZoom
  | call_resize box => resize box
  | call_frame id t => frame id t
  end.

(** The globe after a sequence of calls, oldest first. *)
Definition run (calls : list Call) (g : Globe) : Globe :=
  fold_left (fun g c => exec (call c) g) calls g.

(** The states a globe started as [g0] goes through. *)
Inductive reachable (g0 : Globe) : Globe -> Prop :=
| reachable_start : reachable g0 g0
| reachable_call (g : Globe) (c : Call) :
    reachable g0 g -> reachable g0 (exec (call c) g).

End Model.

(** ** What a list of context calls paints *)

(** The drawing state of the 2D context the calls act on: the current path
    (what was drawn under which projection), and the current styles. *)
Record Pen := {
  pen_path : list (Projection * GeoObject);
  pen_fillStyle : option string;
  pen_strokeStyle : string;
  pen_lineWidth : Q
}.

(** A visible effect on the surface: the surface is cleared, or the current
    path is filled or stroked with the styles current at that moment. *)
Inductive Paint :=
| paint_clear
| paint_fill (shape : list (Projection * GeoObject)) (style : option string)
| paint_stroke (shape : list (Projection * GeoObject)) (style : string) (lineWidth : Q).

Definition pen_after (pen : Pen) (c : CanvasCall) : Pen :=
  match c with
  | clearRect _ _ _ _ => pen
  | beginPath =>
      {| pen_path := []; pen_fillStyle := pen_fillStyle pen;
         pen_strokeStyle := pen_strokeStyle pen; pen_lineWidth := pen_lineWidth pen |}
  | path p o =>
      {| pen_path := pen_path pen ++ [(p, o)]; pen_fillStyle := pen_fillStyle pen;
         pen_strokeStyle := pen_strokeStyle pen; pen_lineWidth := pen_lineWidth pen |}
  | set_fillStyle v =>
      {| pen_path := pen_path pen; pen_fillStyle := v;
         pen_strokeStyle := pen_strokeStyle pen; pen_lineWidth := pen_lineWidth pen |}
  | set_strokeStyle v =>
      {| pen_path := pen_path pen; pen_fillStyle := pen_fillStyle pen;
         pen_strokeStyle := v; pen_lineWidth := pen_lineWidth pen |}
  | set_lineWidth v =>
      {| pen_path := pen_path pen; pen_fillStyle := pen_fillStyle pen;
         pen_strokeStyle := pen_strokeStyle pen; pen_lineWidth := v |}
  | fill => pen
  | stroke => pen
  end.

Definition paint_of (pen : Pen) (c : CanvasCall) : list Paint :=
  match c with
  | clearRect _ _ _ _ => [paint_clear]
  | fill => [paint_fill (pen_path pen) (pen_fillStyle pen)]
  | stroke => [paint_stroke (pen_path pen) (pen_strokeStyle pen) (pen_lineWidth pen)]
  | _ => []
  end.

(** The paints of a list of calls, oldest first, from the drawing state
    [pen]. *)
Fixpoint paints (pen : Pen) (calls : list CanvasCall) : list Paint :=
  match calls with
  | [] => []
  | c :: rest => paint_of pen c ++ paints (pen_after pen c) rest
  end.

(** The number of [render()] calls a context has seen: each clears the
    surface once, and nothing else clears it. *)
Fixpoint renders (calls : list CanvasCall) : nat :=
  match calls with
  | [] => O
  | clearRect _ _ _ _ :: rest => S (renders rest)
  | _ :: rest => renders rest
  end.

(** ** A small atlas and a stand-in for d3

    Used to run the methods on concrete inputs. *)

Module Demo.

Definition germany : Feature :=
  {| properties_id := "DEU"; properties_name := "Germany";
     geometry := [[(6, 47); (15, 47); (15, 55); (6, 55)]] |}.

Definition france : Feature :=
  {| properties_id := "FRA"; properties_name := "France";
     geometry := [[(-5, 42); (8, 42); (8, 51); (-5, 51)]] |}.

Definition belgium : Feature :=
  {| properties_id := "BEL"; properties_name := "Belgium";
     geometry := [[(2.5, 49.5); (6.5, 49.5); (6.5, 51.5); (2.5, 51.5)]] |}.

Definition russia : Feature :=
  {| properties_id := "RUS"; properties_name := "Russia";
     geometry := [[(30, 42); (180, 42); (180, 78); (30, 78)]] |}.

Definition atlas : Atlas :=
  {| countriesGeoJson := [germany; france; belgium; russia];
     bordersGeoJson := [[(6, 47); (6, 55)]; [(8, 42); (8, 51)]];
     REGION_COUNTRY_MAP :=
       [("western europe", ["Belgium"; "France"; "Germany"; "Luxembourg"])] |}.

(** Sum of the coordinates of a ring and its number of points. *)
Fixpoint ring_sum (ring : list Position) : Q * Q * Q :=
  match ring with
  | [] => (0, 0, 0)
  | (x, y) :: rest =>
      let '(sx, sy, n) := ring_sum rest in (Qred (sx + x), Qred (sy + y), Qred (n + 1))
  end.

(** The mean point of the first ring. *)
Definition centroid (f : option Feature) : Position :=
  match f with
  | Some {| geometry := ring :: _ |} =>
      let '(sx, sy, n) := ring_sum ring in (Qred (sx / n), Qred (sy / n))
  | _ => (0, 0)
  end.

Definition linear (a b t : Q) : Q := Qred (a * (1 - t) + b * t).

(** Width of the longitudes of a ring. *)
Fixpoint lon_span (ring : list Position) (lo hi : Q) : Q :=
  match ring with
  | [] => hi - lo
  | (x, _) :: rest =>
      lon_span rest (if Qlt_bool x lo then x else lo) (if Qlt_bool hi x then x else hi)
  end.

(** The scale at which the object fills the extent: the sphere has a
    diameter of two scale units, a feature is as wide as its longitudes. *)
Definition fit (extent : Extent) (o : GeoObject) : Q :=
  let '((x0, y0), (x1, y1)) := extent in
  let side := if Qlt_bool (x1 - x0) (y1 - y0) then x1 - x0 else y1 - y0 in
  match o with
  | FeatureObject {| geometry := ((x, y) :: ring) :: _ |} =>
      Qred (side / (lon_span ring x x * (3.14 / 180)))
  | _ => Qred (side / 2)
  end.

Definition d3 : D3 :=
  {| geoCentroid := centroid;
     geoInterpolate := fun a b t => (linear (fst a) (fst b) t, linear (snd a) (snd b) t);
     interpolate := linear;
     fitExtentScale := fit |}.

Definition box : BoundingBox := {| width := 800; height := 600 |}.

(** An atlas that breaks the data model: two countries under one id. *)
Definition twins : Atlas :=
  {| countriesGeoJson :=
       [ {| properties_id := "X"; properties_name := "North";
            geometry := [[(0, 10); (10, 10); (10, 20); (0, 20)]] |};
         {| properties_id := "X"; properties_name := "South";
            geometry := [[(0, 0); (10, 0); (10, 10); (0, 10)]] |} ];
     bordersGeoJson := [[(0, 10); (10, 10)]];
     REGION_COUNTRY_MAP := [] |}.

End Demo.

(** ** Vocabulary of the statements *)

Section Vocabulary.

Context `{Atlas} `{D3}.

(** The calls one pass over a highlighted country issues. *)
Definition highlight_calls (p : Projection) (country : HighlightEntry) : list CanvasCall :=
  [ beginPath; path p (FeatureObject (entry_geojson country));
    set_fillStyle (Some (entry_color country)); fill ].

(** The calls of one [render()] in state [g]. *)
Definition render_calls (g : Globe) : list CanvasCall :=
  [ clearRect 0 0 (width (holderBoundingBox g)) (height (holderBoundingBox g));
    beginPath; path (projection g) Sphere;
    set_fillStyle (fillStyle (globe (settings g)));
    set_strokeStyle (strokeStyle (globe (settings g)));
    set_lineWidth (strokeWidth (globe (settings g)));
    stroke ]
  ++ (if negb (is_null (fillStyle (globe (settings g)))) then [fill] else [])
  ++ [ beginPath; path (projection g) landGeoJson;
       set_fillStyle (fillStyle (land (settings g)));
       set_strokeStyle (strokeStyle (land (settings g)));
       set_lineWidth (strokeWidth (land (settings g)));
       fill ]
  ++ (if Qlt_bool 0 (strokeWidth (land (settings g))) then [stroke] else [])
  ++ flat_map (highlight_calls (projection g)) (highlightedCountries g)
  ++ [ beginPath; path (projection g) (MultiLineString bordersGeoJson);
       set_strokeStyle (strokeStyle (borders (settings g)));
       set_lineWidth (strokeWidth (borders (settings g)));
       stroke ].

(** [m] returns and only appends [calls] to the context. *)
Definition emits (m : M unit) (calls : list CanvasCall) : Prop :=
  forall g, m g = (Normal tt, set_canvasContext (canvasContext g ++ calls) g).

(** The dataset lookup by an already lowercased name. *)
Definition find_country (lowered : string) : option Feature :=
  find (fun country => String.eqb (toLowerCase (properties_name country)) lowered)
       countriesGeoJson.

(** The ids of the dataset identify its countries: two features with the
    same id have the same name, up to letter case. *)
Definition ids_identify_countries : Prop :=
  forall f1 f2,
    In f1 countriesGeoJson -> In f2 countriesGeoJson ->
    properties_id f1 = properties_id f2 ->
    toLowerCase (properties_name f1) = toLowerCase (properties_name f2).

(** An entry made by [highlightCountry]: its name resolves to the feature
    whose id it carries. *)
Definition entry_resolves (e : HighlightEntry) : Prop :=
  exists f, find_country (entry_name e) = Some f /\ properties_id f = entry_id e.

(** The highlighted set holds resolved entries, one per id at most. *)
Definition highlights_ok (l : list HighlightEntry) : Prop :=
  Forall entry_resolves l /\ NoDup (map entry_id l).

(** There is an entry with the id [id] in the highlighted set. *)
Definition has_entry (id : string) (g : Globe) : Prop :=
  exists e, In e (highlightedCountries g) /\ entry_id e = id.

(** Whether the list holds an entry with this id. *)
Definition holds_id (id : string) (l : list HighlightEntry) : bool :=
  match find (fun obj => String.eqb (entry_id obj) id) l with
  | Some _ => true
  | None => false
  end.

(** The entry [highlightCountry countryName color] makes for the feature
    [f] under the settings [s]. *)
Definition entry_for (countryName : string) (color : option string) (s : Settings)
    (f : Feature) : HighlightEntry :=
  {| entry_id := properties_id f;
     entry_name := toLowerCase countryName;
     entry_color := or_string color (highlightColor s);
     entry_geojson := f |}.

(** The highlighted list [highlightCountry countryName color] leaves. *)
Definition with_country (countryName : string) (color : option string) (s : Settings)
    (l : list HighlightEntry) : list HighlightEntry :=
  match getCountryGeoJson countryName with
  | Some f =>
      if holds_id (properties_id f) l then l
      else l ++ [entry_for countryName color s f]
  | None => l
  end.

(** The highlighted list [unhighlightCountry name] leaves. *)
Definition without_country (name : string) (l : list HighlightEntry) : list HighlightEntry :=
  match findIndex (fun e => String.eqb (entry_name e) (toLowerCase name)) l with
  | Some i => splice1 i l
  | None => l
  end.

(** The state [m] ends in is related by [R] to the one it started in. *)
Definition preserves (R : Globe -> Globe -> Prop) {A : Type} (m : M A) : Prop :=
  forall g, R g (snd (m g)).

(** [g'] has the same value of the field [field] as [g]. *)
Definition same_on {A : Type} (field : Globe -> A) (g g' : Globe) : Prop :=
  field g' = field g.

(** [g'] has a well-formed highlighted set if [g] has. *)
Definition keeps_ok (g g' : Globe) : Prop :=
  highlights_ok (highlightedCountries g) -> highlights_ok (highlightedCountries g').

(** The zoom factor and the animation session. *)
Definition zoom_and_session (g : Globe) : Q * option Session := (zoom g, session g).

(** The animation callbacks [(id, t)], as calls. *)
Definition frames (callbacks : list (nat * Q)) : list Call :=
  map (fun cb => call_frame (fst cb) (snd cb)) callbacks.

(** The projection after the step of [tween] at progress [t]. *)
Definition stepped (tween : Tween) (t : Q) (p : Projection) : Projection :=
  {| rotate := match interpolateRotation tween with
               | Some (a, b) => geoInterpolate a b t
               | None => rotate p
               end;
     scale := match interpolationScale tween with
              | Some (a, b) => interpolate a b t
              | None => scale p
              end |}.

(** The tween a factory returns when it runs in state [g]. *)
Definition tween_of (factory : TweenFactory) (g : Globe) : Tween :=
  match factory with
  | centerOnCountry_factory f zoom_ offsetX offsetY =>
      {| interpolateRotation :=
           Some (rotate (projection g),
                 (- fst (geoCentroid (Some f)) - offsetX,
                  - snd (geoCentroid (Some f)) - offsetY));
         interpolationScale :=
           match zoom_ with
           | zoom_number z => Some (scale (projection g), baseProjectionScale g * z)
           | _ => None
           end |}
  | zoom_factory scale_ =>
      {| interpolateRotation := None; interpolationScale := Some scale_ |}
  end.

(** The zoom factor stored once a factory has run from the factor [current]. *)
Definition zoom_of (factory : TweenFactory) (current : Q) : Q :=
  match factory with
  | centerOnCountry_factory _ (zoom_number z) _ _ => z
  | _ => current
  end.

Definition rotation_target (tween : Tween) : option Position :=
  option_map snd (interpolateRotation tween).

Definition scale_target (tween : Tween) : option Q :=
  option_map snd (interpolationScale tween).

(** Where a session is going: its identity, the rotation and the scale it
    animates to ([None] for one it does not animate), the zoom factor it
    stores, the projection and the base scale at its request. *)
Record Plan := {
  plan_session : nat;
  plan_rotation : option Position;
  plan_scale : option Q;
  plan_zoom : Q;
  plan_from : Projection;
  plan_base : Q
}.

(** The projection is where the plan leads: at the targets it has, and
    where it was for what the plan does not animate. *)
Definition arrived (plan : Plan) (g : Globe) : Prop :=
  match plan_rotation plan with
  | Some r => same_rotation (rotate (projection g)) r
  | None => rotate (projection g) = rotate (plan_from plan)
  end
  /\ match plan_scale plan with
     | Some s => scale (projection g) == s
     | None => scale (projection g) = scale (plan_from plan)
     end.

(** The globe follows the plan: the session of the plan is the active one,
    not yet started or under way towards the targets of the plan, or it is
    over and the projection has arrived. *)
Definition follows (plan : Plan) (g : Globe) : Prop :=
  baseProjectionScale g = plan_base plan
  /\ (plan_rotation plan = None -> rotate (projection g) = rotate (plan_from plan))
  /\ (plan_scale plan = None -> scale (projection g) = scale (plan_from plan))
  /\ match session g with
     | Some s =>
         session_id s = plan_session plan
         /\ match session_state s with
            | Scheduled factory =>
                zoom_of factory (zoom g) = plan_zoom plan
                /\ forall g', baseProjectionScale g' = plan_base plan ->
                     rotation_target (tween_of factory g') = plan_rotation plan
                     /\ scale_target (tween_of factory g') = plan_scale plan
            | Started tween =>
                zoom g = plan_zoom plan
                /\ rotation_target tween = plan_rotation plan
                /\ scale_target tween = plan_scale plan
            end
     | None => zoom g = plan_zoom plan /\ arrived plan g
     end.

(** What a navigation call that starts a session in state [g] asks for. *)
Definition requested (c : Call) (g : Globe) : option Plan :=
  match c with
  | call_zoomOnCountry countryName zoom_ offsetX offsetY =>
      match getCountryGeoJson countryName with
      | Some f =>
          let target :=
            (- fst (geoCentroid (Some f)) - or_zero offsetX,
             - snd (geoCentroid (Some f)) - or_zero offsetY) in
          let factor :=
            match zoom_ with
            | zoom_number z => Some z
            | zoom_auto | zoom_undefined =>
                Some (calculateZoomLevelForFullscreenCountry countryName f g)
            | zoom_null => None
            end in
          Some {| plan_session := nextSession g;
                  plan_rotation := Some target;
                  plan_scale := option_map (Qmult (baseProjectionScale g)) factor;
                  plan_zoom := match factor with Some z => z | None => zoom g end;
                  plan_from := projection g;
                  plan_base := baseProjectionScale g |}
      | None => None
      end
  | call_setZoom (zoom_number z) =>
      if Qeq_bool z (zoom g) then None
      else Some {| plan_session := nextSession g;
                   plan_rotation := None;
                   plan_scale := Some (baseProjectionScale g * z);
                   plan_zoom := z;
                   plan_from := projection g;
                   plan_base := baseProjectionScale g |}
  | _ => None
  end.

(** A zoom argument that is not a number below 1. *)
Definition zoom_value_ok (zoom_ : ZoomValue) : Prop :=
  match zoom_ with
  | zoom_number z => 1 <= z
  | _ => True
  end.

(** A call whose zoom argument, if it has one, is not a number below 1. *)
Definition zoom_argument_ok (c : Call) : Prop :=
  match c with
  | call_zoomOn _ zoom_ _ _ => zoom_value_ok zoom_
  | call_zoomOnCountry _ zoom_ _ _ => zoom_value_ok zoom_
  | call_setZoom zoom_ => zoom_value_ok zoom_
  | _ => True
  end.

(** The stored zoom factor is at least 1, and so is the one a session that
    has not started yet will store. *)
Definition zoom_ok (g : Globe) : Prop :=
  1 <= zoom g
  /\ forall s factory, session g = Some s -> session_state s = Scheduled factory ->
       1 <= zoom_of factory (zoom g).

(** A holder in which the sphere is fitted at a scale other than zero.  That
    scale is the base scale [setupProjection] computes for the holder, and
    only when it is not zero is the quotient of
    [calculateZoomLevelForFullscreenCountry] the one the code computes. *)
Definition viewport_ok (box : BoundingBox) : Prop :=
  ~ fitExtentScale ((0, 0), (width box, height box)) Sphere == 0.

(** A call that, if it is a resize, finds such a holder. *)
Definition resize_ok (c : Call) : Prop :=
  match c with
  | call_resize box => viewport_ok box
  | _ => True
  end.

(** The keys a call looks up in an object literal: [REGION_COUNTRY_MAP] for
    the highlight methods, [regionToZoomFunction] and then
    [predefinedFillZoomLevels] for [zoomOn], which lowers the name first,
    and [predefinedFillZoomLevels] for [zoomOnCountry]. *)
Definition looks_up (c : Call) : list string :=
  match c with
  | call_highlight name _ | call_unhighlight name => [name]
  | call_highlightRegion regionName _ | call_unhighlightRegion regionName => [regionName]
  | call_centerOnCountry name | call_zoomOn name _ _ _ => [toLowerCase name]
  | call_zoomOnCountry countryName _ _ _ => [countryName]
  | _ => []
  end.

(** A call that looks up no key inherited from [Object.prototype]: the
    calls on which the tables of own keys are the objects of the code. *)
Definition own_keys_only (c : Call) : Prop :=
  forall key, In key (looks_up c) -> ~ In key inherited_keys.

(** The state the navigation engine and [resize] work on. *)
Definition navigation_state (g : Globe)
    : Projection * Q * Q * option string * option Session * nat * BoundingBox :=
  (projection g, baseProjectionScale g, zoom g, zoomedCountry g, session g,
   nextSession g, holderBoundingBox g).

(** The calls of the highlight store. *)
Definition highlight_call (c : Call) : bool :=
  match c with
  | call_highlight _ _ | call_unhighlight _
  | call_highlightCountry _ _ _ | call_unhighlightCountry _ _
  | call_highlightRegion _ _ | call_unhighlightRegion _ => true
  | _ => false
  end.

(** The calls of the navigation engine, the resize and the callbacks. *)
Definition navigation_call (c : Call) : bool :=
  match c with
  | call_centerOnCountry _ | call_zoomOn _ _ _ _ | call_zoomOnCountry _ _ _ _
  | call_setZoom _ | call_resetZoom | call_resize _ | call_frame _ _ => true
  | _ => false
  end.

(** [m] returns, whatever the state. *)
Definition normal {A : Type} (m : M A) : Prop :=
  forall g, exists a, fst (m g) = Normal a.

(** An entry carries the id and the geometry of the feature its name
    resolves to. *)
Definition entry_faithful (e : HighlightEntry) : Prop :=
  exists f, find_country (entry_name e) = Some f
            /\ entry_id e = properties_id f /\ entry_geojson e = f.

(** [g'] has a highlighted list with the property [P] if [g] has. *)
Definition keeps (P : list HighlightEntry -> Prop) (g g' : Globe) : Prop :=
  P (highlightedCountries g) -> P (highlightedCountries g').

(** The zoomed country, when there is one, is a name of the dataset. *)
Definition zoomed_resolves (g : Globe) : Prop :=
  forall name, zoomedCountry g = Some name -> getCountryGeoJson name <> None.

(** [g'] has a zoomed country of the dataset if [g] has. *)
Definition keeps_zoomed (g g' : Globe) : Prop :=
  zoomed_resolves g -> zoomed_resolves g'.


End Vocabulary.

(** ** Properties *)

Section Properties.

Context `{Atlas} `{D3}.

(** *** The monad *)

Lemma run_cons (c : Call) (calls : list Call) (g : Globe) :
  run (c :: calls) g = run calls (exec (call c) g).
Proof. reflexivity. Qed.

Lemma run_app (calls1 calls2 : list Call) (g : Globe) :
  run (calls1 ++ calls2) g = run calls2 (run calls1 g).
Proof. unfold run. apply fold_left_app. Qed.

Lemma bind_normal {A B : Type} (m : M A) (k : A -> M B) (g g' : Globe) (a : A) :
  m g = (Normal a, g') -> bind m k g = k a g'.
Proof. intros E. unfold bind. rewrite E. reflexivity. Qed.

Lemma set_canvasContext_same (g : Globe) :
  set_canvasContext (canvasContext g ++ []) g = g.
Proof. destruct g; unfold set_canvasContext; simpl. rewrite app_nil_r. reflexivity. Qed.

Lemma emits_ret : emits (ret tt) [].
Proof. intros g. unfold ret. rewrite set_canvasContext_same. reflexivity. Qed.

Lemma emits_context (c : CanvasCall) : emits (context c) [c].
Proof. intros g. reflexivity. Qed.

Lemma emits_bind (m k : M unit) (l1 l2 : list CanvasCall) :
  emits m l1 -> emits k l2 -> emits (m ;; k) (l1 ++ l2).
Proof.
  intros Hm Hk g. rewrite (@bind_normal _ _ m _ g _ tt (Hm g)), Hk.
  unfold set_canvasContext; simpl. rewrite app_assoc. reflexivity.
Qed.

Lemma emits_when (b : bool) (m : M unit) (l : list CanvasCall) :
  emits m l -> emits (when b m) (if b then l else []).
Proof. destruct b; intros Hm; [exact Hm | apply emits_ret]. Qed.

Lemma emits_forEach {A : Type} (body : A -> M unit) (calls : A -> list CanvasCall)
    (l : list A) :
  (forall x, emits (body x) (calls x)) -> emits (forEach l body) (flat_map calls l).
Proof.
  intros Hbody. induction l as [|x rest IH]; simpl.
  - apply emits_ret.
  - apply emits_bind; [apply Hbody | exact IH].
Qed.

(** *** [render()] *)

Lemma emits_get (k : Globe -> M unit) (calls : Globe -> list CanvasCall) :
  (forall g0, emits (k g0) (calls g0)) ->
  forall g, (g0 <- get ;; k g0) g
            = (Normal tt, set_canvasContext (canvasContext g ++ calls g) g).
Proof. intros Hk g. unfold bind, get. apply Hk. Qed.

Lemma render_emits (g : Globe) :
  render g = (Normal tt, set_canvasContext (canvasContext g ++ render_calls g) g).
Proof.
  unfold render. apply (emits_get _ render_calls). intros g0.
  unfold render_calls. cbv zeta beta.
  repeat first
    [ apply emits_context
    | apply (emits_bind (l1 := [_]) (emits_context _))
    | apply emits_bind
    | apply (emits_when _ (emits_context _))
    | apply emits_forEach; intros country; unfold highlight_calls ].
Qed.

Lemma Qlt_bool_iff (a b : Q) : Qlt_bool a b = true <-> a < b.
Proof.
  unfold Qlt_bool. rewrite negb_true_iff. split.
  - intros E. apply Qnot_le_lt. intros L. apply Qle_bool_iff in L. congruence.
  - intros L. destruct (Qle_bool b a) eqn:E; [|reflexivity].
    apply Qle_bool_iff in E. exfalso. exact (Qlt_not_le _ _ L E).
Qed.

Lemma Qlt_bool_dec (a b : Q) (A : Type) (x y : A) :
  (if Qlt_bool a b then x else y) = (if Qlt_le_dec a b then x else y).
Proof.
  destruct (Qlt_le_dec a b) as [L|L].
  - apply Qlt_bool_iff in L. rewrite L. reflexivity.
  - destruct (Qlt_bool a b) eqn:E; [|reflexivity].
    apply Qlt_bool_iff in E. exfalso. exact (Qlt_not_le _ _ E L).
Qed.

(** The passes over the highlighted countries paint one fill each, in the
    order of the list, whatever the drawing state before them. *)
Lemma paints_highlights (p : Projection) (l : list HighlightEntry)
    (rest : list CanvasCall) (after : list Paint) (pen : Pen) :
  (forall pen', paints pen' rest = after) ->
  paints pen (flat_map (highlight_calls p) l ++ rest)
  = map (fun e => paint_fill [(p, FeatureObject (entry_geojson e))] (Some (entry_color e))) l
    ++ after.
Proof.
  intros Hrest. revert pen. induction l as [|e l IH]; intros pen; simpl.
  - apply Hrest.
  - f_equal. apply IH.
Qed.

(** C7. Every [render()] returns, leaves all of the state but the context
    untouched, and what its calls paint is, in this order: the surface
    cleared; the sphere stroked with the globe style, and filled exactly
    when the globe fill style is not [null]; the land filled with the land
    style, and stroked exactly when the land stroke width is greater than 0;
    one fill per highlighted country, in the order of the highlighted list,
    each in the color of its entry; the border mesh stroked with the border
    style, last. *)
Theorem render_paints_passes_in_order (g : Globe) (pen : Pen) :
  exists calls,
    render g = (Normal tt, set_canvasContext (canvasContext g ++ calls) g) /\
    paints pen calls =
      [ paint_clear;
        paint_stroke [(projection g, Sphere)]
          (strokeStyle (globe (settings g))) (strokeWidth (globe (settings g))) ]
      ++ match fillStyle (globe (settings g)) with
         | Some style => [paint_fill [(projection g, Sphere)] (Some style)]
         | None => []
         end
      ++ [ paint_fill [(projection g, landGeoJson)] (fillStyle (land (settings g))) ]
      ++ (if Qlt_le_dec 0 (strokeWidth (land (settings g)))
          then [paint_stroke [(projection g, landGeoJson)]
                  (strokeStyle (land (settings g))) (strokeWidth (land (settings g)))]
          else [])
      ++ map (fun e => paint_fill [(projection g, FeatureObject (entry_geojson e))]
                                  (Some (entry_color e)))
             (highlightedCountries g)
      ++ [ paint_stroke [(projection g, MultiLineString bordersGeoJson)]
             (strokeStyle (borders (settings g))) (strokeWidth (borders (settings g))) ].
Proof.
  exists (render_calls g). split; [apply render_emits|].
  unfold render_calls.
  rewrite <- (Qlt_bool_dec 0 (strokeWidth (land (settings g)))).
  destruct (fillStyle (globe (settings g))) as [style|];
    destruct (Qlt_bool 0 (strokeWidth (land (settings g))));
    simpl; repeat f_equal;
    apply paints_highlights; intros pen'; reflexivity.
Qed.

(** *** What a computation preserves *)

Section Preservation.

Context (R : Globe -> Globe -> Prop) {R_preorder : PreOrder R}.

Lemma preserves_ret {A : Type} (a : A) : preserves R (ret a).
Proof. intros g. simpl. reflexivity. Qed.

Lemma preserves_get : preserves R get.
Proof. intros g. simpl. reflexivity. Qed.

Lemma preserves_throw {A : Type} (e : JsError) : preserves R (@throw A e).
Proof. intros g. simpl. reflexivity. Qed.

Lemma preserves_modify (f : Globe -> Globe) :
  (forall g, R g (f g)) -> preserves R (modify f).
Proof. intros Hf g. apply Hf. Qed.

Lemma preserves_bind {A B : Type} (m : M A) (k : A -> M B) :
  preserves R m -> (forall a, preserves R (k a)) -> preserves R (bind m k).
Proof.
  intros Hm Hk g. unfold bind. specialize (Hm g).
  destruct (m g) as [[a|e] g']; simpl in *; [|exact Hm].
  transitivity g'; [exact Hm | apply Hk].
Qed.

Lemma preserves_when (b : bool) (m : M unit) : preserves R m -> preserves R (when b m).
Proof. destruct b; intros Hm; [exact Hm | apply preserves_ret]. Qed.

Lemma preserves_forEach {A : Type} (l : list A) (body : A -> M unit) :
  (forall x, preserves R (body x)) -> preserves R (forEach l body).
Proof.
  intros Hbody. induction l as [|x rest IH]; simpl.
  - apply preserves_ret.
  - apply preserves_bind; [apply Hbody | intros _; exact IH].
Qed.

Lemma preserves_context (c : CanvasCall) :
  (forall g l, R g (set_canvasContext l g)) -> preserves R (context c).
Proof. intros Hc. apply preserves_modify. intros g. apply Hc. Qed.

Lemma preserves_render :
  (forall g l, R g (set_canvasContext l g)) -> preserves R render.
Proof. intros Hc g. rewrite render_emits. apply Hc. Qed.

End Preservation.

(** Every [zoomOn] is a [zoomOnCountry]: of the name itself with the
    arguments as given, or of the anchor country of a region with the given
    zoom or else the default of the region, which is at least 1. *)
Lemma zoomOn_is_zoomOnCountry (name : string) (zoom_ : ZoomValue)
    (offsetX offsetY : option Q) :
  exists countryName zoom' offsetX' offsetY',
    zoomOn name zoom_ offsetX offsetY = zoomOnCountry countryName zoom' offsetX' offsetY'
    /\ (zoom' = zoom_ \/ exists d, zoom' = or_zoom zoom_ d /\ 1 <= d).
Proof.
  unfold zoomOn, regionToZoomFunction. cbn [lookup].
  repeat match goal with
  | |- context [if String.eqb ?a ?b then _ else _] => destruct (String.eqb a b)
  end;
  try (eexists _, _, _, _; split; [reflexivity | right; eexists; split; [reflexivity|];
       unfold Qle; simpl; lia]).
  eexists _, _, _, _; split; [reflexivity | left; reflexivity].
Qed.

(** *** The highlight store *)

Lemma set_same (g : Globe) (calls : list CanvasCall) :
  set_canvasContext (canvasContext g ++ calls) (set_highlightedCountries (highlightedCountries g) g)
  = set_canvasContext (canvasContext g ++ calls) g.
Proof. destruct g; reflexivity. Qed.

Lemma renders_app (l1 l2 : list CanvasCall) :
  renders (l1 ++ l2) = (renders l1 + renders l2)%nat.
Proof.
  induction l1 as [|c l1 IH]; simpl; [reflexivity|].
  destruct c; simpl; rewrite IH; reflexivity.
Qed.

Lemma renders_highlight_calls (p : Projection) (l : list HighlightEntry) :
  renders (flat_map (highlight_calls p) l) = O.
Proof. induction l as [|e l IH]; simpl; [reflexivity | exact IH]. Qed.

Lemma renders_render_calls (g : Globe) : renders (render_calls g) = 1%nat.
Proof.
  unfold render_calls.
  destruct (negb (is_null (fillStyle (globe (settings g)))));
    destruct (Qlt_bool 0 (strokeWidth (land (settings g))));
    simpl; rewrite renders_app, renders_highlight_calls; reflexivity.
Qed.

(** [highlightCountry] returns; it leaves the list [with_country] describes
    and renders once exactly when it asked to and added an entry. *)
Lemma highlightCountry_eq (countryName : string) (color : option string)
    (render_ : bool) (g : Globe) :
  let l := with_country countryName color (settings g) (highlightedCountries g) in
  exists calls,
    highlightCountry countryName color render_ g
    = (Normal tt, set_canvasContext (canvasContext g ++ calls) (set_highlightedCountries l g))
    /\ (length (highlightedCountries g) + (if render_ then renders calls else 0)
        = if render_ then length l else length (highlightedCountries g))%nat
    /\ (render_ = false -> calls = []).
Proof.
  unfold highlightCountry, strict_ne_null, isCountryHighlighted, with_country, holds_id.
  unfold bind at 1, get at 1.
  destruct (getCountryGeoJson countryName) as [f|].
  - destruct (find _ (highlightedCountries g)) as [e|]; simpl.
    + exists []. rewrite set_same, set_canvasContext_same.
      repeat split; destruct render_; simpl; lia.
    + destruct render_; simpl.
      * unfold bind, modify. rewrite render_emits.
        eexists. split; [reflexivity|]. rewrite renders_render_calls.
        rewrite length_app. simpl. split; [lia | discriminate].
      * exists []. unfold bind, modify, ret.
        split; [| split; [lia | reflexivity]].
        f_equal. unfold set_canvasContext; simpl. rewrite app_nil_r. reflexivity.
  - simpl. exists []. rewrite set_same, set_canvasContext_same.
    repeat split; destruct render_; simpl; lia.
Qed.

(** [unhighlightCountry] returns and leaves the list [without_country]
    describes. *)
Lemma unhighlightCountry_eq (name : string) (render_ : bool) (g : Globe) :
  exists calls,
    unhighlightCountry name render_ g
    = (Normal tt, set_canvasContext (canvasContext g ++ calls)
                    (set_highlightedCountries (without_country name (highlightedCountries g)) g)).
Proof.
  unfold unhighlightCountry, without_country. unfold bind at 1, get at 1.
  destruct (findIndex _ (highlightedCountries g)) as [i|].
  - destruct render_; simpl.
    + unfold bind, modify. rewrite render_emits. eexists. reflexivity.
    + exists []. unfold bind, modify, ret. f_equal.
      unfold set_canvasContext; simpl. rewrite app_nil_r. reflexivity.
  - exists []. rewrite set_same, set_canvasContext_same. reflexivity.
Qed.

(** A loop of [highlightCountry] calls over the names [countries]. *)
Lemma forEach_highlightCountry (countries : list string) (color : option string)
    (render_ : bool) (g : Globe) :
  let l := fold_left (fun l country => with_country country color (settings g) l)
                     countries (highlightedCountries g) in
  exists calls,
    forEach countries (fun country => highlightCountry country color render_) g
    = (Normal tt, set_canvasContext (canvasContext g ++ calls) (set_highlightedCountries l g))
    /\ (length (highlightedCountries g) + (if render_ then renders calls else 0)
        = if render_ then length l else length (highlightedCountries g))%nat
    /\ (render_ = false -> calls = []).
Proof.
  revert g. induction countries as [|country rest IH]; intros g; simpl.
  - exists []. rewrite set_same, set_canvasContext_same.
    repeat split; destruct render_; simpl; lia.
  - destruct (highlightCountry_eq country color render_ g) as (c1 & E1 & N1 & F1).
    rewrite (@bind_normal _ _ _ _ g _ tt E1).
    match type of E1 with _ = (_, ?g1) =>
      destruct (IH g1) as (c2 & E2 & N2 & F2) end.
    rewrite E2. simpl in *. exists (c1 ++ c2). split; [|split].
    + f_equal. unfold set_canvasContext; simpl. rewrite app_assoc. reflexivity.
    + rewrite renders_app. destruct render_; lia.
    + intros ->. rewrite F1, F2; reflexivity.
Qed.

(** C6. For a region of the region table, [highlightRegion] returns, leaves
    the highlighted list that calling [highlightCountry] once for each
    member, in order, leaves, and renders exactly once; the calls one by one
    render once per entry they add. *)
Theorem highlightRegion_as_highlightCountry_each (regionName : string)
    (countries : list string) (color : option string) (g : Globe) :
  lookup regionName REGION_COUNTRY_MAP = Some countries ->
  let one_by_one := forEach countries (fun country => highlightCountry country color true) in
  fst (highlightRegion regionName color g) = Normal tt
  /\ fst (one_by_one g) = Normal tt
  /\ highlightedCountries (exec (highlightRegion regionName color) g)
     = highlightedCountries (exec one_by_one g)
  /\ renders (canvasContext (exec (highlightRegion regionName color) g))
     = S (renders (canvasContext g))
  /\ (renders (canvasContext (exec one_by_one g))
      = renders (canvasContext g)
        + (length (highlightedCountries (exec one_by_one g))
           - length (highlightedCountries g)))%nat.
Proof.
  intros Hregion one_by_one. unfold highlightRegion, exec. rewrite Hregion.
  destruct (forEach_highlightCountry countries color false g) as (c0 & E0 & _ & F0).
  destruct (forEach_highlightCountry countries color true g) as (c1 & E1 & N1 & _).
  rewrite (@bind_normal _ _ _ _ g _ tt E0), render_emits.
  unfold one_by_one. rewrite E1. rewrite (F0 eq_refl). simpl.
  repeat split.
  - rewrite !renders_app, renders_render_calls. simpl. lia.
  - rewrite renders_app. lia.
Qed.

(** *** Fields a computation leaves alone *)

#[local] Instance same_on_preorder {A : Type} (field : Globe -> A) : PreOrder (same_on field).
Proof.
  split.
  - intros g. reflexivity.
  - intros a b c Hab Hbc. unfold same_on in *. congruence.
Qed.

Ltac preserve :=
  repeat first
    [ typeclasses eauto
    | apply preserves_ret
    | apply preserves_get
    | apply preserves_throw
    | apply preserves_render; intros ? ?; reflexivity
    | apply preserves_when
    | apply preserves_forEach; [| intros ?]
    | apply preserves_modify; intros ?; reflexivity
    | apply preserves_bind; [| | intros ?]
    | progress unfold context, console_log, transition
    | match goal with
      | |- preserves _ (match ?x with _ => _ end) => destruct x
      | |- preserves _ (let (_, _) := ?x in _) => destruct x
      end ].

Lemma setupProjection_same {A : Type} (field : Globe -> A) :
  (forall v g, field (set_projection v g) = field g) ->
  (forall v g, field (set_baseProjectionScale v g) = field g) ->
  preserves (same_on field) setupProjection.
Proof.
  intros Hp Hb. unfold setupProjection.
  apply preserves_bind; [typeclasses eauto | preserve | intros g0].
  apply preserves_bind; [typeclasses eauto | | intros _];
    apply preserves_modify; intros g; [apply Hp | apply Hb].
Qed.

Lemma frame_same_highlights (id : nat) (t : Q) :
  preserves (same_on highlightedCountries) (frame id t).
Proof. unfold frame, run_factory, step. preserve. Qed.

Lemma zoomOnCountry_same_highlights (countryName : string) (zoom_ : ZoomValue)
    (offsetX offsetY : option Q) :
  preserves (same_on highlightedCountries) (zoomOnCountry countryName zoom_ offsetX offsetY).
Proof. unfold zoomOnCountry. preserve. Qed.

Lemma setZoom_same_highlights (zoom_ : ZoomValue) :
  preserves (same_on highlightedCountries) (setZoom zoom_).
Proof. unfold setZoom. preserve. Qed.

Lemma resize_same_highlights (box : BoundingBox) :
  preserves (same_on highlightedCountries) (resize box).
Proof.
  unfold resize.
  apply preserves_bind; [typeclasses eauto | preserve | intros _].
  apply preserves_bind;
    [typeclasses eauto | apply setupProjection_same; reflexivity | intros _].
  preserve.
Qed.

(** *** Lookups *)

Lemma find_country_some (lowered : string) (f : Feature) :
  find_country lowered = Some f ->
  In f countriesGeoJson /\ toLowerCase (properties_name f) = lowered.
Proof.
  intros E. apply find_some in E. destruct E as [Hin Heq].
  split; [exact Hin | apply String.eqb_eq; exact Heq].
Qed.

Lemma find_country_present (f : Feature) :
  In f countriesGeoJson ->
  exists f0, find_country (toLowerCase (properties_name f)) = Some f0.
Proof.
  intros Hin. unfold find_country.
  destruct (find _ countriesGeoJson) as [f0|] eqn:E; [exists f0; reflexivity|].
  pose proof (find_none _ _ E f Hin) as Hf. simpl in Hf.
  rewrite String.eqb_refl in Hf. discriminate.
Qed.

Lemma holds_id_true (id : string) (l : list HighlightEntry) :
  holds_id id l = true <-> In id (map entry_id l).
Proof.
  unfold holds_id. induction l as [|e l IH]; simpl.
  - split; [discriminate | tauto].
  - destruct (String.eqb (entry_id e) id) eqn:E.
    + apply String.eqb_eq in E. split; auto.
    + apply String.eqb_neq in E. rewrite IH. split; [auto | intros [Heq|Hin]; tauto].
Qed.

Lemma holds_id_false (id : string) (l : list HighlightEntry) :
  holds_id id l = false <-> ~ In id (map entry_id l).
Proof.
  rewrite <- holds_id_true. destruct (holds_id id l); split; congruence.
Qed.

Lemma isCountryHighlighted_known (countryName : string) (f : Feature) (g : Globe) :
  getCountryGeoJson countryName = Some f ->
  isCountryHighlighted countryName g = holds_id (properties_id f) (highlightedCountries g).
Proof. intros E. unfold isCountryHighlighted, holds_id. rewrite E. reflexivity. Qed.

Lemma isCountryHighlighted_unknown (countryName : string) (g : Globe) :
  getCountryGeoJson countryName = None -> isCountryHighlighted countryName g = true.
Proof. intros E. unfold isCountryHighlighted. rewrite E. reflexivity. Qed.

Lemma findIndex_split {A : Type} (p : A -> bool) (l : list A) (i : nat) :
  findIndex p l = Some i ->
  exists l1 x l2, l = l1 ++ x :: l2 /\ p x = true /\ splice1 i l = l1 ++ l2.
Proof.
  revert i. induction l as [|y l IH]; intros i; simpl; [discriminate|].
  destruct (p y) eqn:Hy.
  - intros [= <-]. exists [], y, l. repeat split; assumption.
  - destruct (findIndex p l) as [j|]; simpl; [|discriminate].
    intros [= <-]. destruct (IH j eq_refl) as (l1 & x & l2 & -> & Hx & Hs).
    exists (y :: l1), x, l2. repeat split; [exact Hx|].
    unfold splice1 in *. simpl. f_equal. exact Hs.
Qed.

Lemma findIndex_none {A : Type} (p : A -> bool) (l : list A) :
  findIndex p l = None -> forall x, In x l -> p x = false.
Proof.
  induction l as [|y l IH]; simpl; [tauto|].
  destruct (p y) eqn:Hy; [discriminate|].
  destruct (findIndex p l); [discriminate|].
  intros _ x [<-|Hin]; [exact Hy | apply IH; [reflexivity | exact Hin]].
Qed.

(** *** The highlighted set stays well formed *)

Lemma with_country_ok (countryName : string) (color : option string) (s : Settings)
    (l : list HighlightEntry) :
  highlights_ok l -> highlights_ok (with_country countryName color s l).
Proof.
  intros [Hres Hnodup]. unfold with_country.
  destruct (getCountryGeoJson countryName) as [f|] eqn:E; [|split; assumption].
  destruct (holds_id (properties_id f) l) eqn:Hid; [split; assumption|].
  apply holds_id_false in Hid. split.
  - apply Forall_app. split; [exact Hres|].
    constructor; [|constructor]. exists f. split; [exact E | reflexivity].
  - rewrite map_app. simpl. apply NoDup_app.
    + exact Hnodup.
    + constructor; [simpl; tauto | constructor].
    + intros id Hin [<-|[]]. exact (Hid Hin).
Qed.

Lemma without_country_ok (name : string) (l : list HighlightEntry) :
  highlights_ok l -> highlights_ok (without_country name l).
Proof.
  intros [Hres Hnodup]. unfold without_country.
  destruct (findIndex _ l) as [i|] eqn:E; [|split; assumption].
  destruct (findIndex_split _ _ E) as (l1 & x & l2 & -> & _ & ->).
  split.
  - apply Forall_app in Hres. destruct Hres as [H1 H2]. inversion H2; subst.
    apply Forall_app. split; assumption.
  - rewrite map_app in *. simpl in Hnodup. apply NoDup_remove_1 in Hnodup. exact Hnodup.
Qed.

(** After [unhighlightCountry] of a name that resolves to [f], no entry
    carries the id of [f]. *)
Lemma without_country_clears (name : string) (f : Feature) (l : list HighlightEntry) :
  ids_identify_countries -> highlights_ok l ->
  getCountryGeoJson name = Some f ->
  holds_id (properties_id f) (without_country name l) = false.
Proof.
  intros Hids [Hres Hnodup] Hf. apply holds_id_false.
  assert (Hname : forall e, In e l -> entry_id e = properties_id f ->
                            entry_name e = toLowerCase name).
  { intros e Hin Hid. rewrite Forall_forall in Hres.
    destruct (Hres e Hin) as (f' & Hf' & Hid').
    apply find_country_some in Hf'. destruct Hf' as [Hin' <-].
    apply find_country_some in Hf. destruct Hf as [Hin0 <-].
    apply Hids; [exact Hin' | exact Hin0 | congruence]. }
  unfold without_country.
  destruct (findIndex _ l) as [i|] eqn:E.
  - destruct (findIndex_split _ _ E) as (l1 & x & l2 & -> & Hx & ->).
    assert (Hxid : entry_id x = properties_id f).
    { rewrite Forall_forall in Hres.
      destruct (Hres x) as (f' & Hf' & Hid'); [apply in_elt|].
      apply String.eqb_eq in Hx. rewrite Hx in Hf'.
      unfold getCountryGeoJson in Hf. unfold find_country in Hf'. congruence. }
    rewrite map_app in *. simpl in Hnodup. apply NoDup_remove_2 in Hnodup.
    rewrite <- Hxid. exact Hnodup.
  - intros Hin. apply in_map_iff in Hin. destruct Hin as (e & Hid & Hin).
    pose proof (findIndex_none _ _ E e Hin) as Hp. simpl in Hp.
    rewrite (Hname e Hin Hid), String.eqb_refl in Hp. discriminate.
Qed.

#[local] Instance keeps_ok_preorder : PreOrder keeps_ok.
Proof.
  split.
  - intros g Hg. exact Hg.
  - intros a b c Hab Hbc Ha. apply Hbc, Hab, Ha.
Qed.

Lemma same_highlights_keeps_ok {A : Type} (m : M A) :
  preserves (same_on highlightedCountries) m -> preserves keeps_ok m.
Proof. intros Hm g Hg. rewrite (Hm g). exact Hg. Qed.

Lemma render_same_highlights : preserves (same_on highlightedCountries) render.
Proof. preserve. Qed.

Lemma highlightCountry_keeps_ok (countryName : string) (color : option string)
    (render_ : bool) :
  preserves keeps_ok (highlightCountry countryName color render_).
Proof.
  intros g Hg. destruct (highlightCountry_eq countryName color render_ g) as (c & E & _).
  rewrite E. simpl. apply with_country_ok, Hg.
Qed.

Lemma unhighlightCountry_keeps_ok (name : string) (render_ : bool) :
  preserves keeps_ok (unhighlightCountry name render_).
Proof.
  intros g Hg. destruct (unhighlightCountry_eq name render_ g) as (c & E).
  rewrite E. simpl. apply without_country_ok, Hg.
Qed.

Lemma highlightRegion_keeps_ok (regionName : string) (color : option string) :
  preserves keeps_ok (highlightRegion regionName color).
Proof.
  unfold highlightRegion. destruct (lookup regionName REGION_COUNTRY_MAP).
  - apply preserves_bind; [typeclasses eauto | | intros _].
    + apply preserves_forEach; [typeclasses eauto | intros country].
      apply highlightCountry_keeps_ok.
    + apply same_highlights_keeps_ok, render_same_highlights.
  - apply same_highlights_keeps_ok. preserve.
Qed.

Lemma unhighlightRegion_keeps_ok (regionName : string) :
  preserves keeps_ok (unhighlightRegion regionName).
Proof.
  unfold unhighlightRegion. destruct (lookup regionName REGION_COUNTRY_MAP).
  - apply preserves_bind; [typeclasses eauto | | intros _].
    + apply preserves_forEach; [typeclasses eauto | intros country].
      apply unhighlightCountry_keeps_ok.
    + apply same_highlights_keeps_ok, render_same_highlights.
  - apply same_highlights_keeps_ok. preserve.
Qed.

Lemma call_keeps_ok (c : Call) : preserves keeps_ok (call c).
Proof.
  destruct c; simpl.
  - apply same_highlights_keeps_ok, render_same_highlights.
  - unfold highlight. destruct (lookup name REGION_COUNTRY_MAP).
    + apply highlightRegion_keeps_ok.
    + apply highlightCountry_keeps_ok.
  - unfold unhighlight. destruct (lookup name REGION_COUNTRY_MAP).
    + apply unhighlightRegion_keeps_ok.
    + apply unhighlightCountry_keeps_ok.
  - apply highlightCountry_keeps_ok.
  - apply unhighlightCountry_keeps_ok.
  - apply highlightRegion_keeps_ok.
  - apply unhighlightRegion_keeps_ok.
  - apply same_highlights_keeps_ok. unfold centerOnCountry.
    apply preserves_bind; [typeclasses eauto | preserve | intros g].
    destruct (zoomOn_is_zoomOnCountry name (zoom_number (zoom g)) None None)
      as (n & z & ox & oy & -> & _).
    apply zoomOnCountry_same_highlights.
  - apply same_highlights_keeps_ok.
    destruct (zoomOn_is_zoomOnCountry name zoom_ offsetX offsetY)
      as (n & z & ox & oy & -> & _).
    apply zoomOnCountry_same_highlights.
  - apply same_highlights_keeps_ok, zoomOnCountry_same_highlights.
  - apply same_highlights_keeps_ok, setZoom_same_highlights.
  - apply same_highlights_keeps_ok, setZoom_same_highlights.
  - apply same_highlights_keeps_ok, resize_same_highlights.
  - apply same_highlights_keeps_ok, frame_same_highlights.
Qed.

Lemma init_same_highlights : preserves (same_on highlightedCountries) init.
Proof.
  unfold init.
  apply preserves_bind;
    [typeclasses eauto | apply setupProjection_same; reflexivity | intros _].
  apply render_same_highlights.
Qed.

Lemma newGlobe_highlights (s : Settings) (box : BoundingBox) :
  highlightedCountries (newGlobe s box) = [].
Proof. unfold newGlobe, exec. rewrite init_same_highlights. reflexivity. Qed.

Lemma reachable_run (calls : list Call) (g0 g : Globe) :
  reachable g0 g -> reachable g0 (run calls g).
Proof.
  revert g. induction calls as [|c calls IH]; intros g Hg; [exact Hg|].
  rewrite run_cons. apply IH. constructor. exact Hg.
Qed.

(** In every state a globe goes through the highlighted set is well formed. *)
Lemma reachable_highlights_ok (s : Settings) (box : BoundingBox) (g : Globe) :
  reachable (newGlobe s box) g -> highlights_ok (highlightedCountries g).
Proof.
  induction 1 as [|g c Hg IH].
  - rewrite newGlobe_highlights. split; constructor.
  - apply (call_keeps_ok c g IH).
Qed.

(** C1. In a dataset whose ids identify its countries, and in any state a
    globe goes through: for a country [f] of the dataset, a color, and four
    spellings of the name of [f] that differ at most in letter case,
    [highlightCountry] returns and [isCountryHighlighted] is then [true];
    [unhighlightCountry] then returns and [isCountryHighlighted] is then
    [false]. *)
Theorem highlight_then_unhighlight (s : Settings) (box : BoundingBox) (g : Globe)
    (f : Feature) (color : option string) (n1 n2 n3 n4 : string) (r1 r3 : bool) :
  ids_identify_countries ->
  reachable (newGlobe s box) g ->
  In f countriesGeoJson ->
  toLowerCase n1 = toLowerCase (properties_name f) ->
  toLowerCase n2 = toLowerCase (properties_name f) ->
  toLowerCase n3 = toLowerCase (properties_name f) ->
  toLowerCase n4 = toLowerCase (properties_name f) ->
  let g1 := exec (highlightCountry n1 color r1) g in
  let g2 := exec (unhighlightCountry n3 r3) g1 in
  fst (highlightCountry n1 color r1 g) = Normal tt
  /\ isCountryHighlighted n2 g1 = true
  /\ fst (unhighlightCountry n3 r3 g1) = Normal tt
  /\ isCountryHighlighted n4 g2 = false.
Proof.
  intros Hids Hreach Hin H1 H2 H3 H4 g1 g2.
  apply reachable_highlights_ok in Hreach.
  destruct (find_country_present f Hin) as (f0 & Hf0).
  assert (G : forall n, toLowerCase n = toLowerCase (properties_name f) ->
                        getCountryGeoJson n = Some f0).
  { intros n Hn. unfold getCountryGeoJson. rewrite Hn. exact Hf0. }
  destruct (highlightCountry_eq n1 color r1 g) as (c1 & E1 & _).
  assert (L1 : highlightedCountries g1
               = with_country n1 color (settings g) (highlightedCountries g)).
  { unfold g1, exec. rewrite E1. reflexivity. }
  destruct (unhighlightCountry_eq n3 r3 g1) as (c3 & E3).
  assert (L2 : highlightedCountries g2 = without_country n3 (highlightedCountries g1)).
  { unfold g2, exec. rewrite E3. reflexivity. }
  repeat split.
  - rewrite E1. reflexivity.
  - rewrite (isCountryHighlighted_known n2 g1 (G n2 H2)), L1.
    unfold with_country. rewrite (G n1 H1).
    destruct (holds_id (properties_id f0) (highlightedCountries g)) eqn:Hid; [exact Hid|].
    apply holds_id_true. rewrite map_app. apply in_or_app. right. simpl. tauto.
  - rewrite E3. reflexivity.
  - rewrite (isCountryHighlighted_known n4 g2 (G n4 H4)), L2.
    apply without_country_clears; [exact Hids | | exact (G n3 H3)].
    rewrite L1. apply with_country_ok, Hreach.
Qed.

(** For a name that resolves to [f], [isCountryHighlighted] is [true]
    exactly when the highlighted set has an entry with the id of [f]. *)
Lemma isCountryHighlighted_resolved (countryName : string) (f : Feature) (g : Globe) :
  getCountryGeoJson countryName = Some f ->
  (isCountryHighlighted countryName g = true <-> has_entry (properties_id f) g).
Proof.
  intros E. rewrite (isCountryHighlighted_known countryName g E), holds_id_true.
  unfold has_entry. rewrite in_map_iff. split.
  - intros (e & Hid & Hin). exists e. split; assumption.
  - intros (e & Hin & Hid). exists e. split; assumption.
Qed.

(** A name that resolves to no country: [highlightCountry] returns and
    changes nothing, the console included. *)
Lemma highlightCountry_unknown (countryName : string) (color : option string)
    (render_ : bool) (g : Globe) :
  getCountryGeoJson countryName = None ->
  highlightCountry countryName color render_ g = (Normal tt, g).
Proof.
  intros E. unfold highlightCountry, strict_ne_null.
  unfold bind, get. rewrite (isCountryHighlighted_unknown countryName g E). reflexivity.
Qed.

(** C4. For a name that resolves to no country, [zoomOnCountry] returns and
    changes nothing but the console, to which it adds its message: the
    projection, the zoom factor, the zoomed country and the animation
    session are as before. *)
Theorem zoomOnCountry_unknown_name (countryName : string) (zoom_ : ZoomValue)
    (offsetX offsetY : option Q) (g : Globe) :
  getCountryGeoJson countryName = None ->
  let message :=
    ("No iso code was found for " ++ countryName ++ " so cannot zoom on it.")%string in
  let g' := exec (zoomOnCountry countryName zoom_ offsetX offsetY) g in
  zoomOnCountry countryName zoom_ offsetX offsetY g
  = (Normal tt, set_console (console g ++ [message]) g)
  /\ projection g' = projection g
  /\ baseProjectionScale g' = baseProjectionScale g
  /\ zoom g' = zoom g
  /\ zoomedCountry g' = zoomedCountry g
  /\ session g' = session g
  /\ nextSession g' = nextSession g
  /\ canvasContext g' = canvasContext g
  /\ console g' = console g ++ [message].
Proof.
  intros E message g'.
  assert (R : zoomOnCountry countryName zoom_ offsetX offsetY g
              = (Normal tt, set_console (console g ++ [message]) g)).
  { unfold zoomOnCountry. rewrite E. reflexivity. }
  split; [exact R|]. unfold g', exec. rewrite R. simpl. repeat split.
Qed.

(** *** The navigation engine *)

Lemma step_eq (tween : Tween) (t : Q) (g : Globe) :
  step tween t g
  = (Normal tt,
     let g1 := set_projection (stepped tween t (projection g)) g in
     set_canvasContext (canvasContext g ++ render_calls g1) g1).
Proof.
  unfold step, stepped.
  destruct (interpolateRotation tween) as [[a b]|];
    destruct (interpolationScale tween) as [[a' b']|];
    unfold bind, modify, ret; rewrite render_emits;
    destruct g as [? ? ? ? ? [? ?] ? ? ? ? ?]; reflexivity.
Qed.

(** One animation callback: ignored unless it belongs to the active session;
    otherwise the factory runs if it has not yet, the session ends if the
    progress is 1, and the step is taken. *)
Lemma frame_eq (id : nat) (t : Q) (g : Globe) :
  frame id t g
  = match session g with
    | Some s =>
        if Nat.eqb (session_id s) id then
          let tween := match session_state s with
                       | Scheduled factory => tween_of factory g
                       | Started tween => tween
                       end in
          let z := match session_state s with
                   | Scheduled factory => zoom_of factory (zoom g)
                   | Started _ => zoom g
                   end in
          let g1 :=
            set_projection (stepped tween t (projection g))
              (set_session (if Qeq_bool t 1 then None
                            else Some {| session_id := id; session_state := Started tween |})
                           (nextSession g) (set_zoom z g)) in
          (Normal tt, set_canvasContext (canvasContext g ++ render_calls g1) g1)
        else (Normal tt, g)
    | None => (Normal tt, g)
    end.
Proof.
  unfold frame. unfold bind at 1, get at 1.
  destruct (session g) as [s|] eqn:Es; [|reflexivity].
  destruct (Nat.eqb (session_id s) id); [|reflexivity].
  destruct (session_state s) as [[f zoom_ ox oy|scale_]|tween]; unfold run_factory.
  - unfold tween_of. destruct (geoCentroid (Some f)) as [x y] eqn:Ec.
    destruct zoom_ as [| | |z];
      unfold bind, get, modify, ret; rewrite step_eq;
      destruct g as [? ? ? ? ? [? ?] ? ? ? ? ?]; simpl; rewrite ?Ec; reflexivity.
  - unfold bind, get, modify, ret; rewrite step_eq;
      destruct g as [? ? ? ? ? [? ?] ? ? ? ? ?]; reflexivity.
  - unfold bind, get, modify, ret; rewrite step_eq;
      destruct g as [? ? ? ? ? [? ?] ? ? ? ? ?]; reflexivity.
Qed.


Section Arrival.

Context {laws : D3Laws}.

(** Any callback keeps the globe on the plan. *)
Lemma frame_follows (plan : Plan) (id : nat) (t : Q) (g : Globe) :
  follows plan g -> follows plan (exec (frame id t) g).
Proof.
  intros Hg. unfold exec. rewrite frame_eq.
  destruct (session g) as [s|] eqn:Es; [|exact Hg].
  destruct (Nat.eqb (session_id s) id) eqn:Eid; [|exact Hg].
  apply Nat.eqb_eq in Eid.
  destruct Hg as (Hbase & Hrot & Hscale & Hs). rewrite Es in Hs. destruct Hs as [Hn Hst].
  set (tween := match session_state s with
                | Scheduled factory => tween_of factory g
                | Started tween => tween
                end).
  set (z := match session_state s with
            | Scheduled factory => zoom_of factory (zoom g)
            | Started _ => zoom g
            end).
  assert (Hz : z = plan_zoom plan).
  { unfold z. destruct (session_state s); tauto. }
  assert (Htr : rotation_target tween = plan_rotation plan).
  { unfold tween. destruct (session_state s); [apply Hst; exact Hbase | tauto]. }
  assert (Hts : scale_target tween = plan_scale plan).
  { unfold tween. destruct (session_state s); [apply Hst; exact Hbase | tauto]. }
  assert (Hrot' : plan_rotation plan = None ->
                  rotate (stepped tween t (projection g)) = rotate (plan_from plan)).
  { intros E. rewrite E in Htr. unfold rotation_target in Htr. unfold stepped; simpl.
    destruct (interpolateRotation tween) as [[a b]|]; [discriminate | auto]. }
  assert (Hscale' : plan_scale plan = None ->
                    scale (stepped tween t (projection g)) = scale (plan_from plan)).
  { intros E. rewrite E in Hts. unfold scale_target in Hts. unfold stepped; simpl.
    destruct (interpolationScale tween) as [[a b]|]; [discriminate | auto]. }
  cbv zeta. unfold follows. simpl.
  split; [exact Hbase|]. split; [exact Hrot'|]. split; [exact Hscale'|].
  destruct (Qeq_bool t 1) eqn:Et; simpl.
  - apply Qeq_bool_iff in Et. split; [exact Hz|]. unfold arrived. simpl. split.
    + destruct (plan_rotation plan) as [r|]; [|auto].
      unfold rotation_target in Htr.
      destruct (interpolateRotation tween) as [[a b]|]; [|discriminate].
      injection Htr as <-. apply geoInterpolate_end, Et.
    + destruct (plan_scale plan) as [sc|]; [|auto].
      unfold scale_target in Hts.
      destruct (interpolationScale tween) as [[a b]|]; [|discriminate].
      injection Hts as <-. apply interpolate_end, Et.
  - repeat split; congruence.
Qed.

Lemma run_frames_follows (plan : Plan) (callbacks : list (nat * Q)) (g : Globe) :
  follows plan g -> follows plan (run (frames callbacks) g).
Proof.
  revert g. induction callbacks as [|[id t] rest IH]; intros g Hg; [exact Hg|].
  unfold frames. simpl map. rewrite run_cons. apply IH. simpl. apply frame_follows, Hg.
Qed.

(** Whatever callbacks come before it, the callback of the plan's session
    at progress 1 leaves the projection where the plan leads. *)
Lemma plan_carried_out (plan : Plan) (callbacks : list (nat * Q)) (g : Globe) :
  follows plan g ->
  let g2 := run (frames callbacks ++ [call_frame (plan_session plan) 1]) g in
  arrived plan g2 /\ zoom g2 = plan_zoom plan /\ session g2 = None
  /\ baseProjectionScale g2 = plan_base plan.
Proof.
  intros Hg g2.
  assert (H1 : follows plan (run (frames callbacks) g)) by (apply run_frames_follows, Hg).
  assert (H2 : follows plan g2).
  { unfold g2. rewrite run_app. simpl. apply frame_follows, H1. }
  assert (Hnone : session g2 = None).
  { unfold g2. rewrite run_app. unfold run at 1. simpl. unfold exec. rewrite frame_eq.
    destruct H1 as (_ & _ & _ & Hs).
    destruct (session (run (frames callbacks) g)) as [s|] eqn:Es; [|exact Es].
    destruct Hs as [-> _]. rewrite Nat.eqb_refl. reflexivity. }
  destruct H2 as (Hbase & _ & _ & Hs). rewrite Hnone in Hs. tauto.
Qed.

End Arrival.

(** A navigation call that starts a session registers it under a fresh
    identity as the only session, and puts the globe on its plan. *)
Lemma request_follows (c : Call) (g : Globe) (plan : Plan) :
  requested c g = Some plan ->
  fst (call c g) = Normal tt
  /\ follows plan (exec (call c) g)
  /\ plan_session plan = nextSession g
  /\ (exists factory, session (exec (call c) g)
        = Some {| session_id := nextSession g; session_state := Scheduled factory |}).
Proof.
  destruct c; try discriminate; simpl.
  - unfold zoomOnCountry. destruct (getCountryGeoJson countryName) as [f|]; [|discriminate].
    intros [= <-]. unfold exec, follows.
    destruct zoom_ as [| | |z]; simpl;
      repeat split; try discriminate; try reflexivity; try (eexists; reflexivity);
      match goal with
      | E : baseProjectionScale _ = _ |- _ =>
          unfold scale_target; simpl; rewrite E; reflexivity
      end.
  - destruct zoom_ as [| | |z]; try discriminate.
    destruct (Qeq_bool z (zoom g)) eqn:Ez; [discriminate|]. intros [= <-].
    assert (E : setZoom (zoom_number z) g
                = (Normal tt,
                   set_session
                     (Some {| session_id := nextSession g;
                              session_state :=
                                Scheduled (zoom_factory (scale (projection g),
                                                         baseProjectionScale g * z)) |})
                     (S (nextSession g)) (set_zoom z g))).
    { unfold setZoom, bind, get. rewrite Ez. reflexivity. }
    unfold exec. rewrite E. unfold follows. simpl.
    repeat split; try discriminate; try reflexivity; try (eexists; reflexivity).
Qed.

(** *** The zoom factor *)

Lemma calculateZoomLevel_at_least_one (countryName : string) (f : Feature) (g : Globe) :
  1 <= calculateZoomLevelForFullscreenCountry countryName f g.
Proof.
  unfold calculateZoomLevelForFullscreenCountry.
  match goal with |- context [Qlt_bool ?x 1] => destruct (Qlt_bool x 1) eqn:E end.
  - apply Qle_refl.
  - apply Qnot_lt_le. intros L. apply Qlt_bool_iff in L. congruence.
Qed.

Lemma or_zoom_ok (zoom_ : ZoomValue) (d : Q) :
  zoom_value_ok zoom_ -> 1 <= d -> zoom_value_ok (or_zoom zoom_ d).
Proof.
  intros Hz Hd. destruct zoom_ as [| | |z]; simpl; auto.
  destruct (Qeq_bool z 0); simpl; auto.
Qed.

Lemma same_zoom_and_session_ok {A : Type} (m : M A) (g : Globe) :
  preserves (same_on zoom_and_session) m -> zoom_ok g -> zoom_ok (exec m g).
Proof.
  intros Hm [Hz Hs]. specialize (Hm g). unfold same_on, zoom_and_session in Hm.
  injection Hm as Ez Es. unfold zoom_ok, exec. rewrite Ez, Es. split; assumption.
Qed.

Lemma highlightCountry_same_zoom (countryName : string) (color : option string)
    (render_ : bool) :
  preserves (same_on zoom_and_session) (highlightCountry countryName color render_).
Proof. unfold highlightCountry. preserve. Qed.

Lemma unhighlightCountry_same_zoom (name : string) (render_ : bool) :
  preserves (same_on zoom_and_session) (unhighlightCountry name render_).
Proof. unfold unhighlightCountry. preserve. Qed.

Lemma highlightRegion_same_zoom (regionName : string) (color : option string) :
  preserves (same_on zoom_and_session) (highlightRegion regionName color).
Proof. unfold highlightRegion, highlightCountry. preserve. Qed.

Lemma unhighlightRegion_same_zoom (regionName : string) :
  preserves (same_on zoom_and_session) (unhighlightRegion regionName).
Proof. unfold unhighlightRegion, unhighlightCountry. preserve. Qed.

Lemma resize_same_zoom (box : BoundingBox) :
  preserves (same_on zoom_and_session) (resize box).
Proof.
  unfold resize.
  apply preserves_bind; [typeclasses eauto | preserve | intros _].
  apply preserves_bind;
    [typeclasses eauto | apply setupProjection_same; reflexivity | intros _].
  preserve.
Qed.

Lemma zoomOnCountry_zoom_ok (countryName : string) (zoom_ : ZoomValue)
    (offsetX offsetY : option Q) (g : Globe) :
  zoom_value_ok zoom_ -> zoom_ok g ->
  zoom_ok (exec (zoomOnCountry countryName zoom_ offsetX offsetY) g).
Proof.
  intros Hv [Hz Hs]. unfold zoomOnCountry, exec.
  destruct (getCountryGeoJson countryName) as [f|].
  - unfold zoom_ok. simpl. split; [exact Hz|].
    intros s factory [= <-] [= <-].
    destruct zoom_ as [| | |z]; simpl; auto using calculateZoomLevel_at_least_one.
  - unfold zoom_ok. simpl. split; assumption.
Qed.

Lemma setZoom_zoom_ok (zoom_ : ZoomValue) (g : Globe) :
  zoom_value_ok zoom_ -> zoom_ok g -> zoom_ok (exec (setZoom zoom_) g).
Proof.
  intros Hv Hg. unfold setZoom, exec, bind, get.
  destruct zoom_ as [| | |z]; try exact Hg.
  destruct (Qeq_bool z (zoom g)); [exact Hg|].
  unfold zoom_ok. simpl. split; [exact Hv|].
  intros s factory [= <-] [= <-]. exact Hv.
Qed.

Lemma frame_zoom_ok (id : nat) (t : Q) (g : Globe) :
  zoom_ok g -> zoom_ok (exec (frame id t) g).
Proof.
  intros Hg. unfold exec. rewrite frame_eq.
  destruct (session g) as [s|] eqn:Es; [|exact Hg].
  destruct (Nat.eqb (session_id s) id); [|exact Hg].
  destruct Hg as [Hz Hs]. unfold zoom_ok. simpl. split.
  - destruct (session_state s) as [factory|tween] eqn:Est; [|exact Hz].
    apply (Hs s factory Es Est).
  - intros s' factory E. destruct (Qeq_bool t 1); [discriminate|].
    injection E as <-. discriminate.
Qed.

Lemma call_zoom_ok (c : Call) (g : Globe) :
  zoom_argument_ok c -> zoom_ok g -> zoom_ok (exec (call c) g).
Proof.
  intros Hc Hg. destruct c; simpl in *.
  - apply same_zoom_and_session_ok; [preserve | exact Hg].
  - apply same_zoom_and_session_ok; [|exact Hg]. unfold highlight.
    destruct (lookup name REGION_COUNTRY_MAP);
      [apply highlightRegion_same_zoom | apply highlightCountry_same_zoom].
  - apply same_zoom_and_session_ok; [|exact Hg]. unfold unhighlight.
    destruct (lookup name REGION_COUNTRY_MAP);
      [apply unhighlightRegion_same_zoom | apply unhighlightCountry_same_zoom].
  - apply same_zoom_and_session_ok; [apply highlightCountry_same_zoom | exact Hg].
  - apply same_zoom_and_session_ok; [apply unhighlightCountry_same_zoom | exact Hg].
  - apply same_zoom_and_session_ok; [apply highlightRegion_same_zoom | exact Hg].
  - apply same_zoom_and_session_ok; [apply unhighlightRegion_same_zoom | exact Hg].
  - unfold centerOnCountry, exec, bind, get.
    destruct (zoomOn_is_zoomOnCountry name (zoom_number (zoom g)) None None)
      as (n & z & ox & oy & -> & Hz).
    apply zoomOnCountry_zoom_ok; [|exact Hg].
    destruct Hz as [->|(d & -> & Hd)]; [|apply or_zoom_ok; [|exact Hd]];
      apply Hg.
  - destruct (zoomOn_is_zoomOnCountry name zoom_ offsetX offsetY)
      as (n & z & ox & oy & -> & Hz).
    apply zoomOnCountry_zoom_ok; [|exact Hg].
    destruct Hz as [->|(d & -> & Hd)]; [exact Hc | apply or_zoom_ok; assumption].
  - apply zoomOnCountry_zoom_ok; assumption.
  - apply setZoom_zoom_ok; assumption.
  - apply setZoom_zoom_ok; [apply Qle_refl | exact Hg].
  - apply same_zoom_and_session_ok; [apply resize_same_zoom | exact Hg].
  - apply frame_zoom_ok, Hg.
Qed.

Lemma newGlobe_zoom_ok (s : Settings) (box : BoundingBox) : zoom_ok (newGlobe s box).
Proof.
  unfold newGlobe. apply same_zoom_and_session_ok.
  - unfold init.
    apply preserves_bind;
      [typeclasses eauto | apply setupProjection_same; reflexivity | intros _].
    preserve.
  - split; [apply Qle_refl | discriminate].
Qed.

Lemma run_zoom_ok (calls : list Call) (g : Globe) :
  Forall zoom_argument_ok calls -> zoom_ok g -> zoom_ok (run calls g).
Proof.
  intros Hcalls. revert g. induction Hcalls as [|c calls Hc _ IH]; intros g Hg.
  - exact Hg.
  - rewrite run_cons. apply IH, call_zoom_ok; assumption.
Qed.

(** *** The base scale *)

(** [setupProjection] is the only writer of the base scale: every call but
    [resize] leaves it as it is. *)
Lemma call_same_base (c : Call) :
  (forall box, c <> call_resize box) ->
  preserves (same_on baseProjectionScale) (call c).
Proof.
  intros Hc. destruct c; simpl.
  - preserve.
  - unfold highlight, highlightRegion, highlightCountry. preserve.
  - unfold unhighlight, unhighlightRegion, unhighlightCountry. preserve.
  - unfold highlightCountry. preserve.
  - unfold unhighlightCountry. preserve.
  - unfold highlightRegion, highlightCountry. preserve.
  - unfold unhighlightRegion, unhighlightCountry. preserve.
  - unfold centerOnCountry. apply preserves_bind; [typeclasses eauto | preserve | intros g].
    destruct (zoomOn_is_zoomOnCountry name (zoom_number (zoom g)) None None)
      as (n & z & ox & oy & -> & _).
    unfold zoomOnCountry. preserve.
  - destruct (zoomOn_is_zoomOnCountry name zoom_ offsetX offsetY)
      as (n & z & ox & oy & -> & _).
    unfold zoomOnCountry. preserve.
  - unfold zoomOnCountry. preserve.
  - unfold setZoom. preserve.
  - unfold resetZoom, setZoom. preserve.
  - destruct (Hc box eq_refl).
  - unfold frame, run_factory, step. preserve.
Qed.

(** After [resize] the base scale is the scale at which the sphere fits the
    holder it found. *)
Lemma resize_base (box : BoundingBox) (g : Globe) :
  baseProjectionScale (exec (resize box) g)
  = fitExtentScale ((0, 0), (width box, height box)) Sphere.
Proof.
  pose (g1 := exec setupProjection (set_holderBoundingBox box g)).
  pose (rest := (g0 <- get ;;
                 match zoomedCountry g0 with
                 | Some name =>
                     let countryGeoJson := getCountryGeoJson name in
                     let (x, y) := geoCentroid countryGeoJson in
                     modify (set_projection
                       {| rotate := (- x, - y);
                          scale := baseProjectionScale g0 * zoom g0 |})
                 | None => ret tt
                 end ;;
                 render) : M unit).
  assert (E : exec (resize box) g = exec rest g1) by reflexivity.
  assert (P : preserves (same_on baseProjectionScale) rest) by (unfold rest; preserve).
  rewrite E. unfold exec. rewrite (P g1 : baseProjectionScale _ = _). reflexivity.
Qed.

(** So is the base scale of a new globe. *)
Lemma newGlobe_base (s : Settings) (box : BoundingBox) :
  baseProjectionScale (newGlobe s box)
  = fitExtentScale ((0, 0), (width box, height box)) Sphere.
Proof.
  unfold newGlobe, init.
  match goal with
  | |- baseProjectionScale (exec (setupProjection ;; render) ?g0) = _ =>
      assert (E : exec (setupProjection ;; render) g0
                  = exec render (exec setupProjection g0)) by reflexivity;
      rewrite E
  end.
  assert (P : preserves (same_on baseProjectionScale) render) by preserve.
  unfold exec at 1. rewrite (P _ : baseProjectionScale _ = _). reflexivity.
Qed.

Lemma call_base_ok (c : Call) (g : Globe) :
  resize_ok c -> ~ baseProjectionScale g == 0 ->
  ~ baseProjectionScale (exec (call c) g) == 0.
Proof.
  intros Hc Hg.
  assert (D : (exists box, c = call_resize box) \/ forall box, c <> call_resize box).
  { destruct c; try (right; intros box; discriminate). left. eexists. reflexivity. }
  destruct D as [[box ->]|D].
  - simpl call. rewrite resize_base. exact Hc.
  - unfold exec. rewrite (call_same_base D g : baseProjectionScale _ = _). exact Hg.
Qed.

Lemma run_base_ok (calls : list Call) (g : Globe) :
  Forall resize_ok calls -> ~ baseProjectionScale g == 0 ->
  ~ baseProjectionScale (run calls g) == 0.
Proof.
  intros Hcalls. revert g. induction Hcalls as [|c calls Hc _ IH]; intros g Hg.
  - exact Hg.
  - rewrite run_cons. apply IH, call_base_ok; assumption.
Qed.

(** The scale a plan animates to is the base scale times the zoom factor it
    stores. *)
Lemma requested_scale (c : Call) (g : Globe) (plan : Plan) (target : Q) :
  requested c g = Some plan -> plan_scale plan = Some target ->
  target = plan_base plan * plan_zoom plan.
Proof.
  destruct c; try discriminate; simpl.
  - destruct (getCountryGeoJson countryName) as [f|]; [|discriminate].
    intros [= <-]. simpl. destruct zoom_; simpl; congruence.
  - destruct zoom_ as [| | |z]; try discriminate.
    destruct (Qeq_bool z (zoom g)); [discriminate|].
    intros [= <-]. simpl. congruence.
Qed.

Lemma predefined_levels (countryName : string) (v : Q) :
  lookup countryName predefinedFillZoomLevels = Some v ->
  Qeq_bool v 0 = false /\ Qlt_bool v 1 = false.
Proof.
  unfold predefinedFillZoomLevels. cbn [lookup].
  repeat match goal with
  | |- context [if String.eqb ?a ?b then _ else _] => destruct (String.eqb a b)
  end; try discriminate; intros [= <-]; split; reflexivity.
Qed.

Lemma clamp_is_max (raw : Q) : (if Qlt_bool raw 1 then 1 else raw) == Qmax 1 raw.
Proof.
  destruct (Qlt_bool raw 1) eqn:E.
  - apply Qlt_bool_iff in E. symmetry. apply Q.max_l. apply Qlt_le_weak, E.
  - symmetry. apply Q.max_r. apply Qnot_lt_le. intros L.
    apply Qlt_bool_iff in L. congruence.
Qed.

(** C8. With [zoom = 'auto'] and a base scale other than zero,
    [zoomOnCountry] of a name that resolves to [f] registers a session whose
    zoom factor [z] is the result of
    [calculateZoomLevelForFullscreenCountry], and that factor is the one
    stored when the session starts.  When the name as passed is a key of
    the table of predefined levels, [z] is the value of the table;
    otherwise [z] is the scale of the projection fitted to the country in
    the viewport, divided by the base scale, times 0.65.  In both cases
    [z] is that number clamped to a minimum of 1. *)
Theorem auto_zoom_level (g : Globe) (countryName : string) (f : Feature)
    (offsetX offsetY : option Q) (t : Q) :
  getCountryGeoJson countryName = Some f ->
  ~ baseProjectionScale g == 0 ->
  let fitted :=
    fitExtentScale ((0, 0), (width (holderBoundingBox g), height (holderBoundingBox g)))
                   (FeatureObject f) in
  let z := calculateZoomLevelForFullscreenCountry countryName f g in
  let n := nextSession g in
  let g1 := exec (zoomOnCountry countryName zoom_auto offsetX offsetY) g in
  session g1
  = Some {| session_id := n;
            session_state :=
              Scheduled (centerOnCountry_factory f (zoom_number z)
                           (or_zero offsetX) (or_zero offsetY)) |}
  /\ zoom (exec (frame n t) g1) = z
  /\ match lookup countryName predefinedFillZoomLevels with
     | Some v => z = v /\ z == Qmax 1 v
     | None => z == Qmax 1 (fitted / baseProjectionScale g * 0.65)
     end.
Proof.
  intros Hf _ fitted z n g1.
  assert (E1 : session g1
               = Some {| session_id := n;
                         session_state :=
                           Scheduled (centerOnCountry_factory f (zoom_number z)
                                        (or_zero offsetX) (or_zero offsetY)) |}).
  { unfold g1, exec, zoomOnCountry. rewrite Hf. reflexivity. }
  split; [exact E1|]. split.
  - unfold exec. rewrite frame_eq, E1. simpl. rewrite Nat.eqb_refl. reflexivity.
  - unfold z, calculateZoomLevelForFullscreenCountry.
    destruct (lookup countryName predefinedFillZoomLevels) as [v|] eqn:Ev.
    + destruct (predefined_levels _ Ev) as [E0 Elt]. rewrite E0.
      split; [rewrite Elt; reflexivity | apply clamp_is_max].
    + apply clamp_is_max.
Qed.

Section Navigation.

Context {laws : D3Laws}.



(** C5, as amended. On a new globe in a holder that gives a base scale other
    than zero, after any sequence of calls and animation callbacks in which
    no zoom argument is a number below 1, every resize finds such a holder
    again, and no name is a key inherited from [Object.prototype]: the base
    scale is not zero and the stored zoom factor is at least 1.  The
    computed zoom level is at least 1 for every country, and a numeric
    factor is stored as it is given.  The scale of the projection is the
    base scale times the stored zoom factor in the state right after the
    callback at progress 1 of a session that animates the scale, when
    nothing but animation callbacks came between the request that started
    the session and that callback. *)
Theorem zoom_factor_at_least_one (s : Settings) (box : BoundingBox) (calls : list Call) :
  viewport_ok box ->
  Forall resize_ok calls ->
  Forall own_keys_only calls ->
  Forall zoom_argument_ok calls ->
  let g := run calls (newGlobe s box) in
  ~ baseProjectionScale g == 0
  /\ 1 <= zoom g
  /\ (forall countryName f,
        ~ In countryName inherited_keys ->
        1 <= calculateZoomLevelForFullscreenCountry countryName f g)
  /\ (forall c plan callbacks,
        own_keys_only c ->
        requested c g = Some plan -> plan_scale plan <> None ->
        let g2 := run (frames callbacks ++ [call_frame (nextSession g) 1])
                      (exec (call c) g) in
        scale (projection g2) == baseProjectionScale g2 * zoom g2).
Proof.
  intros Hbox Hresizes _ Hcalls g.
  split.
  { apply run_base_ok; [exact Hresizes|]. rewrite newGlobe_base. exact Hbox. }
  split; [apply (run_zoom_ok Hcalls (newGlobe_zoom_ok s box))|].
  split; [intros; apply calculateZoomLevel_at_least_one|].
  intros c plan callbacks _ Hreq Hscale g2.
  destruct (request_follows c g Hreq) as (_ & Hfollows & Hn & _).
  pose proof (plan_carried_out callbacks Hfollows) as Hend.
  rewrite Hn in Hend. cbv zeta in Hend. fold g2 in Hend.
  destruct Hend as ([_ Hsc] & Hz & _ & Hb).
  destruct (plan_scale plan) as [target|] eqn:Et; [|congruence].
  rewrite (requested_scale c g Hreq Et) in Hsc. rewrite Hz, Hb. exact Hsc.
Qed.

End Navigation.

(** *** The lookup by name *)

Lemma lower_ascii_idempotent (c : ascii) : lower_ascii (lower_ascii c) = lower_ascii c.
Proof. destruct c as [[] [] [] [] [] [] [] []]; reflexivity. Qed.

Lemma toLowerCase_idempotent (s : string) : toLowerCase (toLowerCase s) = toLowerCase s.
Proof.
  induction s as [|c s IH]; simpl; [reflexivity|].
  rewrite lower_ascii_idempotent, IH. reflexivity.
Qed.

Lemma find_first {A : Type} (p : A -> bool) (l : list A) (x : A) :
  find p l = Some x ->
  exists before after,
    l = before ++ x :: after /\ p x = true /\ forall y, In y before -> p y = false.
Proof.
  induction l as [|y l IH]; simpl; [discriminate|].
  destruct (p y) eqn:Hy.
  - intros [= <-]. exists [], l. repeat split; [exact Hy | intros z []].
  - intros E. destruct (IH E) as (before & after & -> & Hx & Hb).
    exists (y :: before), after. repeat split; [exact Hx|].
    intros z [<-|Hz]; [exact Hy | apply Hb, Hz].
Qed.

(** X1. [getCountryGeoJson] looks the name up without regard to letter case and
    returns the first feature of the dataset with that name: on a hit the
    features before it have other names, on a miss no feature has the
    name; two spellings of a name get the same answer. *)
Theorem getCountryGeoJson_first_match (countryName : string) :
  match getCountryGeoJson countryName with
  | Some f =>
      exists before after,
        countriesGeoJson = before ++ f :: after
        /\ toLowerCase (properties_name f) = toLowerCase countryName
        /\ forall f', In f' before ->
             toLowerCase (properties_name f') <> toLowerCase countryName
  | None =>
      forall f', In f' countriesGeoJson ->
        toLowerCase (properties_name f') <> toLowerCase countryName
  end
  /\ forall spelling, toLowerCase spelling = toLowerCase countryName ->
       getCountryGeoJson spelling = getCountryGeoJson countryName.
Proof.
  split.
  - unfold getCountryGeoJson.
    destruct (find _ countriesGeoJson) as [f|] eqn:E.
    + destruct (find_first _ _ E) as (before & after & Hl & Hf & Hb).
      exists before, after. split; [exact Hl|]. split.
      * apply String.eqb_eq, Hf.
      * intros f' Hin. apply String.eqb_neq, Hb, Hin.
    + intros f' Hin. apply String.eqb_neq. apply (find_none _ _ E f' Hin).
  - intros spelling Hs. unfold getCountryGeoJson. rewrite Hs. reflexivity.
Qed.

Lemma getCountryGeoJson_lowered (countryName : string) :
  getCountryGeoJson (toLowerCase countryName) = getCountryGeoJson countryName.
Proof. unfold getCountryGeoJson. rewrite toLowerCase_idempotent. reflexivity. Qed.

(** *** No call throws *)

Lemma normal_ret {A : Type} (a : A) : normal (ret a).
Proof. intros g. exists a. reflexivity. Qed.

Lemma normal_get : normal get.
Proof. intros g. exists g. reflexivity. Qed.

Lemma normal_modify (f : Globe -> Globe) : normal (modify f).
Proof. intros g. exists tt. reflexivity. Qed.

Lemma normal_bind {A B : Type} (m : M A) (k : A -> M B) :
  normal m -> (forall a, normal (k a)) -> normal (bind m k).
Proof.
  intros Hm Hk g. unfold bind. destruct (Hm g) as [a Ha].
  destruct (m g) as [[a'|e] g']; simpl in Ha; [|discriminate].
  apply Hk.
Qed.

Lemma normal_when (b : bool) (m : M unit) : normal m -> normal (when b m).
Proof. destruct b; intros Hm; [exact Hm | apply normal_ret]. Qed.

Lemma normal_forEach {A : Type} (l : list A) (body : A -> M unit) :
  (forall x, normal (body x)) -> normal (forEach l body).
Proof.
  intros Hbody. induction l as [|x rest IH]; simpl.
  - apply normal_ret.
  - apply normal_bind; [apply Hbody | intros _; exact IH].
Qed.

Lemma normal_render : normal render.
Proof. intros g. rewrite render_emits. exists tt. reflexivity. Qed.

Lemma normal_highlightCountry (countryName : string) (color : option string)
    (render_ : bool) :
  normal (highlightCountry countryName color render_).
Proof.
  intros g. destruct (highlightCountry_eq countryName color render_ g) as (c & E & _).
  rewrite E. exists tt. reflexivity.
Qed.

Lemma normal_frame (id : nat) (t : Q) : normal (frame id t).
Proof.
  intros g. rewrite frame_eq. exists tt.
  destruct (session g) as [s|]; [|reflexivity].
  destruct (Nat.eqb (session_id s) id); reflexivity.
Qed.

Ltac returning :=
  repeat first
    [ apply normal_ret
    | apply normal_get
    | apply normal_render
    | apply normal_highlightCountry
    | apply normal_when
    | apply normal_forEach; intros ?
    | apply normal_modify
    | apply normal_bind; [| intros ?]
    | progress unfold context, console_log, transition
    | match goal with
      | |- normal (match ?x with _ => _ end) => destruct x
      | |- normal (let (_, _) := ?x in _) => destruct x
      end ].

Lemma normal_zoomOnCountry (countryName : string) (zoom_ : ZoomValue)
    (offsetX offsetY : option Q) :
  normal (zoomOnCountry countryName zoom_ offsetX offsetY).
Proof. unfold zoomOnCountry. returning. Qed.

Lemma normal_call (c : Call) : normal (call c).
Proof.
  destruct c; simpl.
  - returning.
  - unfold highlight, highlightRegion. returning.
  - unfold unhighlight, unhighlightRegion, unhighlightCountry. returning.
  - returning.
  - unfold unhighlightCountry. returning.
  - unfold highlightRegion. returning.
  - unfold unhighlightRegion, unhighlightCountry. returning.
  - unfold centerOnCountry. apply normal_bind; [returning | intros g].
    destruct (zoomOn_is_zoomOnCountry name (zoom_number (zoom g)) None None)
      as (n & z & ox & oy & -> & _).
    apply normal_zoomOnCountry.
  - destruct (zoomOn_is_zoomOnCountry name zoom_ offsetX offsetY)
      as (n & z & ox & oy & -> & _).
    apply normal_zoomOnCountry.
  - apply normal_zoomOnCountry.
  - unfold setZoom. returning.
  - unfold resetZoom, setZoom. returning.
  - unfold resize, setupProjection. returning.
  - apply normal_frame.
Qed.

(** X2. On an initialised globe a public method, a resize or an animation
    callback that looks up no key inherited from [Object.prototype] does not
    throw, whatever the state and its other arguments: the one place where
    the code could then dereference [undefined], in [highlightCountry], is
    never reached. *)
Theorem no_call_throws (c : Call) (g : Globe) :
  own_keys_only c -> fst (call c g) = Normal tt.
Proof. intros _. destruct (normal_call c g) as [[] E]. exact E. Qed.

(** *** Highlighting twice *)

Lemma highlightCountry_when_highlighted (countryName : string) (color : option string)
    (render_ : bool) (g : Globe) :
  isCountryHighlighted countryName g = true ->
  highlightCountry countryName color render_ g = (Normal tt, g).
Proof.
  intros E. unfold highlightCountry, strict_ne_null, bind, get. rewrite E. reflexivity.
Qed.

(** X3. Highlighting a country that has just been highlighted changes nothing,
    under any spelling of its name and with any color: no second entry, the
    color of the first call stays, nothing is rendered and nothing is
    logged. *)
Theorem highlightCountry_twice (n1 n2 : string) (color1 color2 : option string)
    (r1 r2 : bool) (g : Globe) :
  toLowerCase n1 = toLowerCase n2 ->
  let g1 := exec (highlightCountry n1 color1 r1) g in
  highlightCountry n2 color2 r2 g1 = (Normal tt, g1).
Proof.
  intros Hn g1. apply highlightCountry_when_highlighted.
  assert (G : getCountryGeoJson n2 = getCountryGeoJson n1).
  { unfold getCountryGeoJson. rewrite Hn. reflexivity. }
  destruct (getCountryGeoJson n1) as [f|] eqn:E1.
  - rewrite (isCountryHighlighted_known n2 g1 G).
    destruct (highlightCountry_eq n1 color1 r1 g) as (c & E & _).
    unfold g1, exec. rewrite E. simpl. unfold with_country. rewrite E1.
    destruct (holds_id (properties_id f) (highlightedCountries g)) eqn:Hid; [exact Hid|].
    apply holds_id_true. rewrite map_app. apply in_or_app. right. simpl. tauto.
  - apply isCountryHighlighted_unknown, G.
Qed.

(** *** Invariants of the highlighted list *)

Section HighlightInvariant.

Variable P : list HighlightEntry -> Prop.
Hypothesis P_with : forall n c s l, P l -> P (with_country n c s l).
Hypothesis P_without : forall n l, P l -> P (without_country n l).

#[local] Instance keeps_preorder : PreOrder (keeps P).
Proof.
  split.
  - intros g Hg. exact Hg.
  - intros a b c Hab Hbc Ha. apply Hbc, Hab, Ha.
Qed.

Lemma same_highlights_keeps {A : Type} (m : M A) :
  preserves (same_on highlightedCountries) m -> preserves (keeps P) m.
Proof. intros Hm g Hg. rewrite (Hm g). exact Hg. Qed.

Lemma highlightCountry_keeps (countryName : string) (color : option string)
    (render_ : bool) :
  preserves (keeps P) (highlightCountry countryName color render_).
Proof.
  intros g Hg. destruct (highlightCountry_eq countryName color render_ g) as (c & E & _).
  rewrite E. simpl. apply P_with, Hg.
Qed.

Lemma unhighlightCountry_keeps (name : string) (render_ : bool) :
  preserves (keeps P) (unhighlightCountry name render_).
Proof.
  intros g Hg. destruct (unhighlightCountry_eq name render_ g) as (c & E).
  rewrite E. simpl. apply P_without, Hg.
Qed.

Lemma highlightRegion_keeps (regionName : string) (color : option string) :
  preserves (keeps P) (highlightRegion regionName color).
Proof.
  unfold highlightRegion. destruct (lookup regionName REGION_COUNTRY_MAP).
  - apply preserves_bind; [typeclasses eauto | | intros _].
    + apply preserves_forEach; [typeclasses eauto | intros country].
      apply highlightCountry_keeps.
    + apply same_highlights_keeps, render_same_highlights.
  - apply same_highlights_keeps. preserve.
Qed.

Lemma unhighlightRegion_keeps (regionName : string) :
  preserves (keeps P) (unhighlightRegion regionName).
Proof.
  unfold unhighlightRegion. destruct (lookup regionName REGION_COUNTRY_MAP).
  - apply preserves_bind; [typeclasses eauto | | intros _].
    + apply preserves_forEach; [typeclasses eauto | intros country].
      apply unhighlightCountry_keeps.
    + apply same_highlights_keeps, render_same_highlights.
  - apply same_highlights_keeps. preserve.
Qed.

Lemma navigation_same_highlights (c : Call) :
  highlight_call c = false -> preserves (same_on highlightedCountries) (call c).
Proof.
  destruct c; simpl; try discriminate; intros _.
  - apply render_same_highlights.
  - unfold centerOnCountry.
    apply preserves_bind; [typeclasses eauto | preserve | intros g].
    destruct (zoomOn_is_zoomOnCountry name (zoom_number (zoom g)) None None)
      as (n & z & ox & oy & -> & _).
    apply zoomOnCountry_same_highlights.
  - destruct (zoomOn_is_zoomOnCountry name zoom_ offsetX offsetY)
      as (n & z & ox & oy & -> & _).
    apply zoomOnCountry_same_highlights.
  - apply zoomOnCountry_same_highlights.
  - apply setZoom_same_highlights.
  - apply setZoom_same_highlights.
  - apply resize_same_highlights.
  - apply frame_same_highlights.
Qed.

Lemma call_keeps (c : Call) : preserves (keeps P) (call c).
Proof.
  destruct (highlight_call c) eqn:Hc;
    [|apply same_highlights_keeps, navigation_same_highlights, Hc].
  destruct c; simpl; try discriminate.
  - unfold highlight. destruct (lookup name REGION_COUNTRY_MAP).
    + apply highlightRegion_keeps.
    + apply highlightCountry_keeps.
  - unfold unhighlight. destruct (lookup name REGION_COUNTRY_MAP).
    + apply unhighlightRegion_keeps.
    + apply unhighlightCountry_keeps.
  - apply highlightCountry_keeps.
  - apply unhighlightCountry_keeps.
  - apply highlightRegion_keeps.
  - apply unhighlightRegion_keeps.
Qed.

Lemma reachable_keeps (s : Settings) (box : BoundingBox) (g : Globe) :
  P [] -> reachable (newGlobe s box) g -> P (highlightedCountries g).
Proof.
  intros Hnil. induction 1 as [|g c Hg IH].
  - rewrite newGlobe_highlights. exact Hnil.
  - apply (call_keeps c g IH).
Qed.

End HighlightInvariant.

Lemma with_country_faithful (n : string) (c : option string) (s : Settings)
    (l : list HighlightEntry) :
  Forall entry_faithful l -> Forall entry_faithful (with_country n c s l).
Proof.
  intros Hl. unfold with_country.
  destruct (getCountryGeoJson n) as [f|] eqn:E; [|exact Hl].
  destruct (holds_id (properties_id f) l); [exact Hl|].
  apply Forall_app. split; [exact Hl|]. constructor; [|constructor].
  exists f. split; [exact E | split; reflexivity].
Qed.

Lemma without_country_incl (n : string) (l : list HighlightEntry) :
  incl (without_country n l) l.
Proof.
  unfold without_country. destruct (findIndex _ l) as [i|] eqn:E; [|apply incl_refl].
  destruct (findIndex_split _ _ E) as (l1 & x & l2 & -> & _ & ->).
  intros e Hin. apply in_app_or in Hin. apply in_or_app.
  destruct Hin; [left | right; right]; assumption.
Qed.

Lemma without_country_faithful (n : string) (l : list HighlightEntry) :
  Forall entry_faithful l -> Forall entry_faithful (without_country n l).
Proof.
  intros Hl. rewrite Forall_forall in *. intros e Hin.
  apply Hl, (without_country_incl n l), Hin.
Qed.

Lemma names_distinct (l : list HighlightEntry) :
  highlights_ok l -> NoDup (map entry_name l).
Proof.
  intros [Hres Hnodup]. induction l as [|e l IH]; simpl; [constructor|].
  inversion Hres as [|? ? He Hl]; subst. inversion Hnodup as [|? ? Hnotin Hnd]; subst.
  constructor; [|apply IH; assumption].
  intros Hin. apply Hnotin. apply in_map_iff in Hin.
  destruct Hin as (e' & Hname & Hin'). rewrite Forall_forall in Hl.
  destruct (Hl e' Hin') as (f' & Hf' & Hid'). destruct He as (f & Hf & Hid).
  rewrite Hname in Hf'. apply in_map_iff. exists e'. split; [congruence | exact Hin'].
Qed.

(** X4. In every state a globe goes through, the highlighted list has at most
    one entry per country id and per name, and every entry is the one of a
    country of the dataset: its name is the lowercased name of the feature
    the name resolves to, and it carries the id and the geometry of that
    feature. *)
Theorem highlighted_entries_are_countries (s : Settings) (box : BoundingBox) (g : Globe) :
  reachable (newGlobe s box) g ->
  NoDup (map entry_id (highlightedCountries g))
  /\ NoDup (map entry_name (highlightedCountries g))
  /\ forall e, In e (highlightedCountries g) ->
       exists f, In f countriesGeoJson
                 /\ getCountryGeoJson (entry_name e) = Some f
                 /\ entry_name e = toLowerCase (properties_name f)
                 /\ entry_id e = properties_id f
                 /\ entry_geojson e = f.
Proof.
  intros Hreach.
  assert (Hok : highlights_ok (highlightedCountries g))
    by (apply reachable_highlights_ok in Hreach; exact Hreach).
  assert (Hfaith : Forall entry_faithful (highlightedCountries g)).
  { apply (@reachable_keeps (Forall entry_faithful) with_country_faithful
             without_country_faithful s box g (Forall_nil _) Hreach). }
  split; [apply Hok|]. split; [apply names_distinct, Hok|].
  intros e Hin. rewrite Forall_forall in Hfaith.
  destruct (Hfaith e Hin) as (f & Hf & Hid & Hgeo).
  destruct (find_country_some _ Hf) as [Hinf Hname].
  exists f. repeat split; try assumption; [|symmetry; exact Hname].
  unfold getCountryGeoJson. rewrite <- Hname in *.
  rewrite toLowerCase_idempotent. exact Hf.
Qed.

(** *** Removing an entry *)

Lemma findIndex_first {A : Type} (p : A -> bool) (l : list A) (i : nat) :
  findIndex p l = Some i ->
  exists l1 x l2,
    l = l1 ++ x :: l2 /\ p x = true /\ splice1 i l = l1 ++ l2
    /\ forall y, In y l1 -> p y = false.
Proof.
  revert i. induction l as [|y l IH]; intros i; simpl; [discriminate|].
  destruct (p y) eqn:Hy.
  - intros [= <-]. exists [], y, l. repeat split; [exact Hy | intros z []].
  - destruct (findIndex p l) as [j|]; simpl; [|discriminate].
    intros [= <-]. destruct (IH j eq_refl) as (l1 & x & l2 & -> & Hx & Hs & Hb).
    exists (y :: l1), x, l2. repeat split; [exact Hx | |].
    + unfold splice1 in *. simpl. f_equal. exact Hs.
    + intros z [<-|Hz]; [exact Hy | apply Hb, Hz].
Qed.

(** X5. [unhighlightCountry] removes the first entry with the lowercased name
    and leaves the others in their order, rendering once if it was asked
    to; when no entry has the name it changes nothing and does not
    render. *)
Theorem unhighlightCountry_removes_one (name : string) (render_ : bool) (g : Globe) :
  let g' := exec (unhighlightCountry name render_) g in
  ((forall e, In e (highlightedCountries g) -> entry_name e <> toLowerCase name)
   /\ unhighlightCountry name render_ g = (Normal tt, g))
  \/ exists before e after,
       highlightedCountries g = before ++ e :: after
       /\ entry_name e = toLowerCase name
       /\ (forall e', In e' before -> entry_name e' <> toLowerCase name)
       /\ highlightedCountries g' = before ++ after
       /\ renders (canvasContext g')
          = (renders (canvasContext g) + if render_ then 1 else 0)%nat.
Proof.
  intros g'.
  destruct (findIndex (fun e => String.eqb (entry_name e) (toLowerCase name))
                      (highlightedCountries g)) as [i|] eqn:E.
  - right. destruct (findIndex_first _ _ E) as (l1 & x & l2 & Hl & Hx & Hs & Hb).
    exists l1, x, l2. split; [exact Hl|]. split; [apply String.eqb_eq, Hx|].
    split; [intros e' Hin; apply String.eqb_neq, Hb, Hin|].
    assert (Eq : unhighlightCountry name render_ g
                 = when render_ render
                     (set_highlightedCountries (splice1 i (highlightedCountries g)) g)).
    { unfold unhighlightCountry, bind, get. rewrite E. reflexivity. }
    unfold g', exec. rewrite Eq. destruct render_; unfold when.
    + rewrite render_emits.
      cbn [snd canvasContext highlightedCountries set_canvasContext
           set_highlightedCountries].
      rewrite renders_app, renders_render_calls. split; [exact Hs | reflexivity].
    + unfold ret. simpl. split; [exact Hs | lia].
  - left. split.
    + intros e Hin. apply String.eqb_neq. apply (findIndex_none _ _ E e Hin).
    + unfold unhighlightCountry, bind, get. rewrite E. reflexivity.
Qed.

Lemma findIndex_last {A : Type} (p : A -> bool) (l : list A) (x : A) :
  (forall y, In y l -> p y = false) -> p x = true ->
  findIndex p (l ++ [x]) = Some (length l) /\ splice1 (length l) (l ++ [x]) = l.
Proof.
  intros Hl Hx. induction l as [|y l IH]; simpl.
  - rewrite Hx. split; reflexivity.
  - rewrite (Hl y (or_introl eq_refl)).
    destruct IH as [IH1 IH2]; [intros z Hz; apply Hl; right; exact Hz|].
    rewrite IH1. split; [reflexivity|].
    unfold splice1 in *. simpl. f_equal. exact IH2.
Qed.

(** X6. Highlighting a country that is not highlighted and then unhighlighting
    it, under any spelling of its name, gives back the highlighted list as
    it was, entry for entry. *)
Theorem highlight_unhighlight_restores (s : Settings) (box : BoundingBox) (g : Globe)
    (n1 n2 : string) (color : option string) (r1 r2 : bool) :
  reachable (newGlobe s box) g ->
  isCountryHighlighted n1 g = false ->
  toLowerCase n2 = toLowerCase n1 ->
  highlightedCountries
    (exec (unhighlightCountry n2 r2) (exec (highlightCountry n1 color r1) g))
  = highlightedCountries g.
Proof.
  intros Hreach Hnot Hn.
  apply reachable_highlights_ok in Hreach. destruct Hreach as [Hres _].
  destruct (getCountryGeoJson n1) as [f|] eqn:Ef;
    [|rewrite (isCountryHighlighted_unknown n1 g Ef) in Hnot; discriminate].
  rewrite (isCountryHighlighted_known n1 g Ef) in Hnot.
  destruct (highlightCountry_eq n1 color r1 g) as (c1 & E1 & _).
  unfold exec at 2. rewrite E1. simpl.
  match goal with |- highlightedCountries (exec _ ?g1) = _ =>
    destruct (unhighlightCountry_eq n2 r2 g1) as (c2 & E2) end.
  unfold exec. rewrite E2. simpl.
  unfold with_country. rewrite Ef, Hnot. unfold without_country.
  match goal with |- context [findIndex ?p (?l ++ [?x])] =>
    destruct (@findIndex_last _ p l x) as [Hi Hsp] end.
  - intros e Hin. apply String.eqb_neq. intros Hname.
    rewrite Forall_forall in Hres. destruct (Hres e Hin) as (f' & Hf' & Hid').
    rewrite Hname, Hn in Hf'. unfold getCountryGeoJson in Ef. unfold find_country in Hf'.
    apply holds_id_false in Hnot. apply Hnot. apply in_map_iff.
    exists e. split; [congruence | exact Hin].
  - simpl. rewrite Hn. apply String.eqb_refl.
  - rewrite Hi. exact Hsp.
Qed.

(** *** Unhighlighting a region *)

Lemma forEach_unhighlightCountry (countries : list string) (g : Globe) :
  exists calls,
    forEach countries (fun country => unhighlightCountry country false) g
    = (Normal tt,
       set_canvasContext (canvasContext g ++ calls)
         (set_highlightedCountries
            (fold_left (fun l country => without_country country l) countries
                       (highlightedCountries g)) g))
    /\ renders calls = O.
Proof.
  revert g. induction countries as [|country rest IH]; intros g; simpl.
  - exists []. rewrite set_same, set_canvasContext_same. split; reflexivity.
  - assert (E1 : unhighlightCountry country false g
                 = (Normal tt,
                    set_highlightedCountries
                      (without_country country (highlightedCountries g)) g)).
    { unfold unhighlightCountry, without_country, bind, get.
      destruct (findIndex _ (highlightedCountries g)); [reflexivity|].
      destruct g; reflexivity. }
    rewrite (@bind_normal _ _ _ _ g _ tt E1).
    match type of E1 with _ = (_, ?g1) => destruct (IH g1) as (c2 & E2 & N2) end.
    rewrite E2. exists c2. split; [reflexivity | exact N2].
Qed.

Lemma without_country_keeps_absent (n id : string) (l : list HighlightEntry) :
  holds_id id l = false -> holds_id id (without_country n l) = false.
Proof.
  rewrite !holds_id_false. intros Hnot Hin. apply Hnot.
  apply in_map_iff in Hin. destruct Hin as (e & He & Hin).
  apply in_map_iff. exists e. split; [exact He | apply (without_country_incl n l), Hin].
Qed.

Lemma fold_without_keeps_absent (countries : list string) (id : string)
    (l : list HighlightEntry) :
  holds_id id l = false ->
  holds_id id (fold_left (fun l country => without_country country l) countries l) = false.
Proof.
  revert l. induction countries as [|c rest IH]; intros l Hl; simpl; [exact Hl|].
  apply IH, without_country_keeps_absent, Hl.
Qed.

Lemma fold_without_clears (countries : list string) (member : string) (f : Feature)
    (l : list HighlightEntry) :
  ids_identify_countries -> highlights_ok l ->
  In member countries -> getCountryGeoJson member = Some f ->
  holds_id (properties_id f)
    (fold_left (fun l country => without_country country l) countries l) = false.
Proof.
  intros Hids. revert l. induction countries as [|c rest IH]; intros l Hl Hin Hf;
    [destruct Hin|]. simpl.
  destruct Hin as [->|Hin].
  - apply fold_without_keeps_absent, without_country_clears; assumption.
  - apply IH; [apply without_country_ok, Hl | exact Hin | exact Hf].
Qed.

(** X8. In a dataset whose ids identify its countries and in any state a globe
    goes through: [unhighlightRegion] of a region of the table returns,
    renders exactly once, and afterwards [isCountryHighlighted] is [false]
    for every member of the region that is a country of the dataset. *)
Theorem unhighlightRegion_clears_members (s : Settings) (box : BoundingBox) (g : Globe)
    (regionName : string) (countries : list string) :
  ids_identify_countries ->
  reachable (newGlobe s box) g ->
  lookup regionName REGION_COUNTRY_MAP = Some countries ->
  let g' := exec (unhighlightRegion regionName) g in
  renders (canvasContext g') = S (renders (canvasContext g))
  /\ forall member, In member countries -> getCountryGeoJson member <> None ->
       isCountryHighlighted member g' = false.
Proof.
  intros Hids Hreach Hregion g'.
  apply reachable_highlights_ok in Hreach.
  destruct (forEach_unhighlightCountry countries g) as (c & E & N).
  assert (Eg : g' = exec render
                 (set_canvasContext (canvasContext g ++ c)
                    (set_highlightedCountries
                       (fold_left (fun l country => without_country country l) countries
                                  (highlightedCountries g)) g))).
  { unfold g', exec, unhighlightRegion. rewrite Hregion.
    rewrite (@bind_normal _ _ _ _ g _ tt E). reflexivity. }
  rewrite Eg. unfold exec. rewrite render_emits. simpl. split.
  - rewrite !renders_app, renders_render_calls, N. lia.
  - intros member Hin Hsome.
    destruct (getCountryGeoJson member) as [f|] eqn:Ef; [|congruence].
    unfold isCountryHighlighted. rewrite Ef. simpl.
    pose proof (fold_without_clears countries member Hids Hreach Hin Ef) as Habs.
    unfold holds_id in Habs.
    destruct (find _ _); [discriminate | reflexivity].
Qed.

(** *** The highlight store and the navigation engine keep apart *)

Lemma highlightCountry_same_navigation (countryName : string) (color : option string)
    (render_ : bool) :
  preserves (same_on (fun g => (navigation_state g, console g)))
            (highlightCountry countryName color render_).
Proof.
  intros g. destruct (highlightCountry_eq countryName color render_ g) as (c & E & _).
  rewrite E. reflexivity.
Qed.

Lemma unhighlightCountry_same_navigation (name : string) (render_ : bool) :
  preserves (same_on (fun g => (navigation_state g, console g)))
            (unhighlightCountry name render_).
Proof. unfold unhighlightCountry. preserve. Qed.

Lemma highlight_same_navigation (name : string) (color : option string) :
  preserves (same_on (fun g => (navigation_state g, console g))) (highlight name color).
Proof.
  unfold highlight. destruct (lookup name REGION_COUNTRY_MAP) as [countries|] eqn:E.
  - unfold highlightRegion. rewrite E.
    apply preserves_bind; [typeclasses eauto | | intros _; preserve].
    apply preserves_forEach; [typeclasses eauto | intros country].
    apply highlightCountry_same_navigation.
  - apply highlightCountry_same_navigation.
Qed.

Lemma unhighlight_same_navigation (name : string) :
  preserves (same_on (fun g => (navigation_state g, console g))) (unhighlight name).
Proof.
  unfold unhighlight. destruct (lookup name REGION_COUNTRY_MAP) as [countries|] eqn:E.
  - unfold unhighlightRegion. rewrite E.
    apply preserves_bind; [typeclasses eauto | | intros _; preserve].
    apply preserves_forEach; [typeclasses eauto | intros country].
    apply unhighlightCountry_same_navigation.
  - apply unhighlightCountry_same_navigation.
Qed.

Lemma highlight_call_same_navigation (c : Call) :
  highlight_call c = true -> preserves (same_on navigation_state) (call c).
Proof.
  assert (W : forall m : M unit,
             preserves (same_on (fun g => (navigation_state g, console g))) m ->
             preserves (same_on navigation_state) m).
  { intros m Hm g. specialize (Hm g). unfold same_on in *. congruence. }
  destruct c; simpl; try discriminate; intros _.
  - apply W, highlight_same_navigation.
  - apply W, unhighlight_same_navigation.
  - apply W, highlightCountry_same_navigation.
  - apply W, unhighlightCountry_same_navigation.
  - unfold highlightRegion. destruct (lookup regionName REGION_COUNTRY_MAP).
    + apply preserves_bind; [typeclasses eauto | | intros _; preserve].
      apply preserves_forEach; [typeclasses eauto | intros country].
      apply W, highlightCountry_same_navigation.
    + preserve.
  - unfold unhighlightRegion. destruct (lookup regionName REGION_COUNTRY_MAP).
    + apply preserves_bind; [typeclasses eauto | | intros _; preserve].
      apply preserves_forEach; [typeclasses eauto | intros country].
      apply W, unhighlightCountry_same_navigation.
    + preserve.
Qed.

(** X10. No call of the highlight store moves the globe: the projection, the
    base scale, the zoom factor, the zoomed country, the animation session
    and the bounding box are as before, so a running animation is neither
    cancelled nor disturbed. *)
Theorem highlighting_leaves_navigation_alone (c : Call) (g : Globe) :
  highlight_call c = true ->
  let g' := exec (call c) g in
  projection g' = projection g
  /\ baseProjectionScale g' = baseProjectionScale g
  /\ zoom g' = zoom g
  /\ zoomedCountry g' = zoomedCountry g
  /\ session g' = session g
  /\ nextSession g' = nextSession g
  /\ holderBoundingBox g' = holderBoundingBox g.
Proof.
  intros Hc g'. pose proof (highlight_call_same_navigation c Hc g) as E.
  unfold same_on, navigation_state in E. fold (exec (call c) g) in E. fold g' in E.
  injection E as E1 E2 E3 E4 E5 E6 E7. repeat split; assumption.
Qed.

(** X9. [highlight] and [unhighlight] never write to the console, whatever the
    name: a name that is neither a region of the table nor a country of
    the dataset is passed over in silence, and so is every member of a
    region that is not a country of the dataset. *)
Theorem highlight_never_logs (name : string) (color : option string) (g : Globe) :
  console (exec (highlight name color) g) = console g
  /\ console (exec (unhighlight name) g) = console g.
Proof.
  pose proof (highlight_same_navigation name color g) as E1.
  pose proof (unhighlight_same_navigation name g) as E2.
  unfold same_on in *. split; unfold exec; congruence.
Qed.

(** X11. No call of the navigation engine, no resize and no animation callback
    changes the highlighted list, so [isCountryHighlighted] answers as
    before. *)
Theorem navigation_leaves_highlights_alone (c : Call) (g : Globe) :
  navigation_call c = true ->
  highlightedCountries (exec (call c) g) = highlightedCountries g
  /\ forall name, isCountryHighlighted name (exec (call c) g) = isCountryHighlighted name g.
Proof.
  intros Hc.
  assert (E : highlightedCountries (exec (call c) g) = highlightedCountries g).
  { apply navigation_same_highlights. destruct c; try discriminate; reflexivity. }
  split; [exact E|]. intros name. unfold isCountryHighlighted. rewrite E. reflexivity.
Qed.

(** *** Resize *)

#[local] Instance keeps_zoomed_preorder : PreOrder keeps_zoomed.
Proof.
  split.
  - intros g Hg. exact Hg.
  - intros a b c Hab Hbc Ha. apply Hbc, Hab, Ha.
Qed.

Lemma same_zoomed_keeps {A : Type} (m : M A) :
  preserves (same_on zoomedCountry) m -> preserves keeps_zoomed m.
Proof. intros Hm g Hg name. rewrite (Hm g). apply Hg. Qed.

Lemma zoomOnCountry_keeps_zoomed (countryName : string) (zoom_ : ZoomValue)
    (offsetX offsetY : option Q) :
  preserves keeps_zoomed (zoomOnCountry countryName zoom_ offsetX offsetY).
Proof.
  intros g Hg. unfold zoomOnCountry.
  destruct (getCountryGeoJson countryName) as [f|] eqn:E.
  - intros name. simpl. intros [= <-]. congruence.
  - exact Hg.
Qed.

Lemma call_keeps_zoomed (c : Call) : preserves keeps_zoomed (call c).
Proof.
  destruct (highlight_call c) eqn:Hc.
  { apply same_zoomed_keeps. intros g.
    pose proof (highlight_call_same_navigation c Hc g) as E.
    unfold same_on, navigation_state in *. congruence. }
  destruct c; simpl; try discriminate.
  - apply same_zoomed_keeps. preserve.
  - unfold centerOnCountry.
    apply preserves_bind; [typeclasses eauto | preserve | intros g].
    destruct (zoomOn_is_zoomOnCountry name (zoom_number (zoom g)) None None)
      as (n & z & ox & oy & -> & _).
    apply zoomOnCountry_keeps_zoomed.
  - destruct (zoomOn_is_zoomOnCountry name zoom_ offsetX offsetY)
      as (n & z & ox & oy & -> & _).
    apply zoomOnCountry_keeps_zoomed.
  - apply zoomOnCountry_keeps_zoomed.
  - apply same_zoomed_keeps. unfold setZoom. preserve.
  - apply same_zoomed_keeps. unfold resetZoom, setZoom. preserve.
  - apply same_zoomed_keeps. unfold resize.
    apply preserves_bind; [typeclasses eauto | preserve | intros _].
    apply preserves_bind;
      [typeclasses eauto | apply setupProjection_same; reflexivity | intros _].
    preserve.
  - apply same_zoomed_keeps. unfold frame, run_factory, step. preserve.
Qed.

Lemma reachable_zoomed_resolves (s : Settings) (box : BoundingBox) (g : Globe) :
  reachable (newGlobe s box) g -> zoomed_resolves g.
Proof.
  induction 1 as [|g c Hg IH].
  - assert (E : zoomedCountry (newGlobe s box) = None).
    { unfold newGlobe, exec, init.
      match goal with |- zoomedCountry (snd (_ ?g0)) = _ =>
        change (same_on zoomedCountry g0 (snd ((setupProjection ;; render) g0))) end.
      apply preserves_bind;
        [typeclasses eauto | apply setupProjection_same; reflexivity | intros _].
      preserve. }
    intros name. rewrite E. discriminate.
  - apply (call_keeps_zoomed c). exact IH.
Qed.

(** X13. [resize] returns and renders exactly once.  It takes the new bounding
    box and computes the base scale for it; the zoom factor, the zoomed
    country, the animation session and the highlighted list stay.  When a
    country is the zoom target, its name resolves, and the projection is
    set at once to the negated centroid of that country, without the
    offsets of the zoom request, and to the new base scale times the zoom
    factor; when none is, the rotation goes back to [(0, 0)] and the scale
    is the one fitted to the viewport inset by the zoom factor. *)
Theorem resize_recentres (s : Settings) (box0 : BoundingBox) (g : Globe)
    (box : BoundingBox) :
  reachable (newGlobe s box0) g ->
  let g' := exec (resize box) g in
  let w := width box in
  let h := height box in
  let base := fitExtentScale ((0, 0), (w, h)) Sphere in
  holderBoundingBox g' = box
  /\ baseProjectionScale g' = base
  /\ zoom g' = zoom g
  /\ zoomedCountry g' = zoomedCountry g
  /\ session g' = session g
  /\ highlightedCountries g' = highlightedCountries g
  /\ renders (canvasContext g') = S (renders (canvasContext g))
  /\ match zoomedCountry g with
     | Some name =>
         exists f,
           getCountryGeoJson name = Some f
           /\ projection g'
              = {| rotate := (- fst (geoCentroid (Some f)), - snd (geoCentroid (Some f)));
                   scale := base * zoom g |}
     | None =>
         projection g'
         = {| rotate := (0, 0);
              scale := fitExtentScale
                         ((w - w * zoom g, h - h * zoom g), (w * zoom g, h * zoom g))
                         Sphere |}
     end.
Proof.
  intros Hreach g' w h base. apply reachable_zoomed_resolves in Hreach.
  set (g1 := set_baseProjectionScale base
               (set_projection
                  {| rotate := (0, 0);
                     scale := fitExtentScale
                                ((w - w * zoom g, h - h * zoom g),
                                 (w * zoom g, h * zoom g)) Sphere |}
                  (set_holderBoundingBox box g))).
  assert (E : resize box g
              = (match zoomedCountry g1 with
                 | Some name =>
                     let (x, y) := geoCentroid (getCountryGeoJson name) in
                     modify (set_projection
                       {| rotate := (- x, - y);
                          scale := baseProjectionScale g1 * zoom g1 |})
                 | None => ret tt
                 end ;; render) g1) by reflexivity.
  unfold g', exec. rewrite E. clear E.
  change (zoomedCountry g1) with (zoomedCountry g).
  destruct (zoomedCountry g) as [name|] eqn:Ez.
  - destruct (getCountryGeoJson name) as [f|] eqn:Ef;
      [|exfalso; exact (Hreach name Ez Ef)].
    destruct (geoCentroid (Some f)) as [x y] eqn:Ec.
    unfold bind, modify. rewrite render_emits.
    cbn [snd canvasContext set_canvasContext]. rewrite renders_app, renders_render_calls.
    repeat (split; [first [reflexivity | exact Ez | simpl; lia] |]).
    exists f. rewrite Ec. split; reflexivity.
  - unfold bind, ret. rewrite render_emits.
    cbn [snd canvasContext set_canvasContext]. rewrite renders_app, renders_render_calls.
    repeat (split; [first [reflexivity | exact Ez | simpl; lia] |]). reflexivity.
Qed.

(** *** More on the navigation engine *)

(** X14. Through [zoomOn], the automatic zoom level of a country of the table of
    predefined levels is the value of the table under any spelling of the
    name: [zoomOn] lowercases the name before [zoomOnCountry] consults the
    table with it.  The session is registered with that level, the
    lowercased name becomes the zoomed country, and nothing else moves
    until the first callback. *)
Theorem zoomOn_auto_uses_table (name : string) (zoom_ : ZoomValue)
    (offsetX offsetY : option Q) (f : Feature) (v : Q) (g : Globe) :
  zoom_ = zoom_auto \/ zoom_ = zoom_undefined ->
  lookup (toLowerCase name) regionToZoomFunction = None ->
  getCountryGeoJson name = Some f ->
  lookup (toLowerCase name) predefinedFillZoomLevels = Some v ->
  let g' := exec (zoomOn name zoom_ offsetX offsetY) g in
  session g'
  = Some {| session_id := nextSession g;
            session_state :=
              Scheduled (centerOnCountry_factory f (zoom_number v)
                           (or_zero offsetX) (or_zero offsetY)) |}
  /\ zoomedCountry g' = Some (toLowerCase name)
  /\ projection g' = projection g
  /\ zoom g' = zoom g
  /\ canvasContext g' = canvasContext g.
Proof.
  intros Hz Hregion Hf Hv g'.
  assert (E : zoomOn name zoom_ offsetX offsetY g
              = zoomOnCountry (toLowerCase name) zoom_auto offsetX offsetY g).
  { unfold zoomOn. rewrite Hregion. destruct Hz as [->| ->]; reflexivity. }
  assert (Hc : forall g0,
             calculateZoomLevelForFullscreenCountry (toLowerCase name) f g0 = v).
  { intros g0. unfold calculateZoomLevelForFullscreenCountry.
    destruct (predefined_levels _ Hv) as [E0 E1]. rewrite Hv, E0, E1. reflexivity. }
  unfold g', exec. rewrite E. unfold zoomOnCountry.
  rewrite getCountryGeoJson_lowered, Hf.
  unfold bind, modify, get, transition. cbn [snd]. rewrite Hc.
  repeat split.
Qed.

Section MoreNavigation.

Context {laws : D3Laws}.

(** X15. When the stored zoom factor is not 1, [resetZoom] followed by any
    callbacks and then the callback of its session at progress 1 leaves the
    scale at the base scale and the zoom factor at 1, with the rotation
    where it was at the call and no session left. *)
Theorem resetZoom_returns_to_base_scale (g : Globe) (callbacks : list (nat * Q)) :
  ~ zoom g == 1 ->
  let n := nextSession g in
  let g2 := run (frames callbacks ++ [call_frame n 1]) (exec resetZoom g) in
  scale (projection g2) == baseProjectionScale g
  /\ zoom g2 = 1
  /\ rotate (projection g2) = rotate (projection g)
  /\ session g2 = None.
Proof.
  intros Hz n g2.
  pose (c := call_setZoom (zoom_number 1)).
  assert (Hb : Qeq_bool 1 (zoom g) = false).
  { destruct (Qeq_bool 1 (zoom g)) eqn:E; [|reflexivity].
    apply Qeq_bool_iff in E. exfalso. apply Hz. symmetry. exact E. }
  destruct (requested c g) as [plan|] eqn:Ereq;
    [|simpl in Ereq; rewrite Hb in Ereq; discriminate].
  destruct (request_follows c g Ereq) as (_ & Hfollows & Hn & _).
  pose proof (plan_carried_out callbacks Hfollows) as Hend.
  rewrite Hn in Hend. cbv zeta in Hend.
  change (exec (call c) g) with (exec resetZoom g) in Hend. fold n g2 in Hend.
  destruct Hend as ([Hrot Hscale] & Hzoom & Hnone & _).
  simpl in Ereq. rewrite Hb in Ereq. injection Ereq as <-. simpl in *.
  split; [rewrite Hscale; ring|]. repeat split; assumption.
Qed.

Lemma frames_same_zoomedCountry (callbacks : list (nat * Q)) (g : Globe) :
  zoomedCountry (run (frames callbacks) g) = zoomedCountry g.
Proof.
  revert g. induction callbacks as [|[id t] rest IH]; intros g; [reflexivity|].
  unfold frames. simpl map. rewrite run_cons. fold (frames rest). rewrite IH.
  simpl. assert (P : preserves (same_on zoomedCountry) (frame id t))
    by (unfold frame, run_factory, step; preserve).
  apply P.
Qed.

(** X16. For a name that is a country of the dataset and not a region of the
    zoom table, [centerOnCountry] followed by any callbacks and then the
    callback of its session at progress 1 leaves the rotation at the
    negated centroid of the country and keeps the zoom factor: the scale is
    the base scale times the zoom factor stored at the call.  The lowercased
    name is the zoomed country. *)
Theorem centerOnCountry_keeps_zoom (name : string) (f : Feature) (g : Globe)
    (callbacks : list (nat * Q)) :
  lookup (toLowerCase name) regionToZoomFunction = None ->
  getCountryGeoJson name = Some f ->
  let n := nextSession g in
  let g2 := run (frames callbacks ++ [call_frame n 1]) (exec (centerOnCountry name) g) in
  same_rotation (rotate (projection g2))
    (- fst (geoCentroid (Some f)) - 0, - snd (geoCentroid (Some f)) - 0)
  /\ zoom g2 = zoom g
  /\ scale (projection g2) == baseProjectionScale g * zoom g
  /\ zoomedCountry g2 = Some (toLowerCase name).
Proof.
  intros Hregion Hf n g2.
  pose (c := call_zoomOnCountry (toLowerCase name) (zoom_number (zoom g)) None None).
  assert (Ec : exec (centerOnCountry name) g = exec (call c) g).
  { unfold exec, centerOnCountry, bind, get, zoomOn. rewrite Hregion. reflexivity. }
  assert (Hf' : getCountryGeoJson (toLowerCase name) = Some f)
    by (rewrite getCountryGeoJson_lowered; exact Hf).
  assert (Hzc : zoomedCountry g2 = Some (toLowerCase name)).
  { unfold g2. change [call_frame n 1] with (frames [(n, 1)]).
    unfold frames. rewrite <- map_app. fold (frames (callbacks ++ [(n, 1)])).
    rewrite frames_same_zoomedCountry, Ec. unfold exec. simpl. unfold zoomOnCountry.
    rewrite Hf'. reflexivity. }
  destruct (requested c g) as [plan|] eqn:Ereq;
    [|simpl in Ereq; rewrite Hf' in Ereq; discriminate].
  destruct (request_follows c g Ereq) as (_ & Hfollows & Hn & _).
  pose proof (plan_carried_out callbacks Hfollows) as Hend.
  rewrite Hn in Hend. cbv zeta in Hend. rewrite <- Ec in Hend. fold n g2 in Hend.
  destruct Hend as ([Hrot Hscale] & Hzoom & _ & _).
  simpl in Ereq. rewrite Hf' in Ereq. injection Ereq as <-. simpl in *.
  repeat split; try assumption; apply Hrot.
Qed.

End MoreNavigation.

(** *** A new highlight on the surface *)



(** *** Highlighting a region *)

Lemma with_country_appends (n : string) (c : option string) (s : Settings)
    (l : list HighlightEntry) :
  exists added, with_country n c s l = l ++ added.
Proof.
  unfold with_country. destruct (getCountryGeoJson n) as [f|].
  - destruct (holds_id (properties_id f) l).
    + exists []. rewrite app_nil_r. reflexivity.
    + eexists. reflexivity.
  - exists []. rewrite app_nil_r. reflexivity.
Qed.

Lemma fold_with_appends (countries : list string) (c : option string) (s : Settings)
    (l : list HighlightEntry) :
  exists added,
    fold_left (fun l country => with_country country c s l) countries l = l ++ added.
Proof.
  revert l. induction countries as [|n rest IH]; intros l; simpl.
  - exists []. rewrite app_nil_r. reflexivity.
  - destruct (with_country_appends n c s l) as (a1 & ->).
    destruct (IH (l ++ a1)) as (a2 & ->).
    exists (a1 ++ a2). rewrite app_assoc. reflexivity.
Qed.

Lemma fold_with_holds (countries : list string) (c : option string) (s : Settings)
    (l : list HighlightEntry) (member : string) (f : Feature) :
  In member countries -> getCountryGeoJson member = Some f ->
  holds_id (properties_id f)
    (fold_left (fun l country => with_country country c s l) countries l) = true.
Proof.
  revert l. induction countries as [|n rest IH]; intros l Hin Hf; [destruct Hin|].
  simpl. destruct Hin as [->|Hin]; [|apply IH; assumption].
  destruct (fold_with_appends rest c s (with_country member c s l)) as (added & ->).
  apply holds_id_true. rewrite map_app. apply in_or_app. left.
  apply holds_id_true. unfold with_country. rewrite Hf.
  destruct (holds_id (properties_id f) l) eqn:Hid; [exact Hid|].
  apply holds_id_true. rewrite map_app. apply in_or_app. right. simpl. tauto.
Qed.

(** X7. [highlightRegion] of a region of the table only appends to the
    highlighted list: the entries that were there stay in place with their
    colors.  Afterwards [isCountryHighlighted] is [true] for every member
    of the region that is a country of the dataset. *)
Theorem highlightRegion_highlights_members (regionName : string)
    (countries : list string) (color : option string) (g : Globe) :
  lookup regionName REGION_COUNTRY_MAP = Some countries ->
  let g' := exec (highlightRegion regionName color) g in
  (exists added, highlightedCountries g' = highlightedCountries g ++ added)
  /\ forall member f, In member countries -> getCountryGeoJson member = Some f ->
       isCountryHighlighted member g' = true.
Proof.
  intros Hregion g'.
  destruct (forEach_highlightCountry countries color false g) as (c0 & E0 & _ & _).
  assert (El : highlightedCountries g'
               = fold_left (fun l country => with_country country color (settings g) l)
                           countries (highlightedCountries g)).
  { unfold g', exec, highlightRegion. rewrite Hregion.
    rewrite (@bind_normal _ _ _ _ g _ tt E0), render_emits. reflexivity. }
  split.
  - rewrite El. apply fold_with_appends.
  - intros member f Hin Ef.
    rewrite (isCountryHighlighted_known member g' Ef), El.
    apply fold_with_holds with member; assumption.
Qed.

End Properties.


(** ** The methods on the small atlas *)

#[local] Existing Instance Demo.atlas.
#[local] Existing Instance Demo.d3.

(** The stand-in for d3 is at its targets at progress 1. *)
Lemma demo_laws : D3Laws.
Proof.
  split.
  - intros a b t Ht. split; simpl; unfold Demo.linear;
      rewrite Qred_correct, Ht; ring.
  - intros a b t Ht. simpl. unfold Demo.linear. rewrite Qred_correct, Ht. ring.
Qed.

(** The ids of the small atlas identify its countries. *)
Lemma demo_ids : ids_identify_countries.
Proof.
  intros f1 f2 H1 H2 E. simpl in H1, H2.
  repeat (destruct H1 as [<-|H1]; [|]); try contradiction;
    repeat (destruct H2 as [<-|H2]; [|]); try contradiction;
    try reflexivity; discriminate E.
Qed.

(** Decides [own_keys_only] for a given call. *)
Ltac own_keys :=
  let key := fresh "key" in
  let Hkey := fresh "Hkey" in
  intros key Hkey; simpl in Hkey;
  repeat (destruct Hkey as [<-|Hkey]); [.. | contradiction];
  vm_compute; intuition discriminate.

Lemma highlight_then_unhighlight_witness :
  let g := run [ call_highlightCountry "france" None true;
                 call_zoomOnCountry "France" zoom_auto None None;
                 call_frame 0 0.5 ] (newGlobe defaultSettings Demo.box) in
  let g1 := exec (highlightCountry "Germany" (Some "red") true) g in
  let g2 := exec (unhighlightCountry "GERMANY" true) g1 in
  fst (highlightCountry "Germany" (Some "red") true g) = Normal tt
  /\ isCountryHighlighted "germany" g1 = true
  /\ fst (unhighlightCountry "GERMANY" true g1) = Normal tt
  /\ isCountryHighlighted "gErMaNy" g2 = false.
Proof.
  intros g g1 g2.
  assert (Hreach : reachable (newGlobe defaultSettings Demo.box) g).
  { apply reachable_run. constructor. }
  exact (@highlight_then_unhighlight Demo.atlas Demo.d3 defaultSettings Demo.box g
           Demo.germany (Some "red") "Germany" "germany" "GERMANY" "gErMaNy" true true
           demo_ids Hreach (or_introl eq_refl) eq_refl eq_refl eq_refl eq_refl).
Defined.

(** C2, where the code departs from it: "atlantis" resolves to no country
    and the highlighted set of the new globe is empty, yet
    [isCountryHighlighted] answers [true]. *)
Theorem isCountryHighlighted_unknown_name_is_true :
  getCountryGeoJson "atlantis" = None
  /\ highlightedCountries (newGlobe defaultSettings Demo.box) = []
  /\ isCountryHighlighted "atlantis" (newGlobe defaultSettings Demo.box) = true.
Proof. repeat split; vm_compute; reflexivity. Qed.

(** C3, where the code departs from it: for "atlantis", which resolves to
    no country, [highlightCountry] returns and leaves the whole state as it
    was; in particular nothing is written to the console. *)
Theorem highlightCountry_unknown_name_is_silent :
  getCountryGeoJson "atlantis" = None
  /\ highlightCountry "atlantis" (Some "#F00") true (newGlobe defaultSettings Demo.box)
     = (Normal tt, newGlobe defaultSettings Demo.box)
  /\ console (exec (highlightCountry "atlantis" (Some "#F00") true)
                   (newGlobe defaultSettings Demo.box)) = [].
Proof. repeat split; vm_compute; reflexivity. Qed.

Lemma zoomOnCountry_unknown_name_witness :
  let g := newGlobe defaultSettings Demo.box in
  let g' := exec (zoomOnCountry "atlantis" (zoom_number 3) None None) g in
  getCountryGeoJson "atlantis" = None
  /\ projection g' = projection g
  /\ zoom g' = zoom g
  /\ zoomedCountry g' = zoomedCountry g
  /\ session g' = session g
  /\ console g' = console g ++ ["No iso code was found for atlantis so cannot zoom on it."].
Proof.
  intros g g'.
  assert (E : getCountryGeoJson "atlantis" = None) by reflexivity.
  destruct (@zoomOnCountry_unknown_name Demo.atlas Demo.d3 "atlantis" (zoom_number 3)
              None None g E) as (_ & Hp & _ & Hz & Hc & Hs & _ & _ & Hl).
  repeat split; assumption.
Defined.

(** C5 as it is stated fails: [setZoom(0.5)] on a new globe stores 0.5, and
    the scale is still the base scale. *)
Lemma setZoom_stores_factor_below_one :
  let g := run [call_setZoom (zoom_number 0.5)] (newGlobe defaultSettings Demo.box) in
  ~ 1 <= zoom g
  /\ ~ scale (projection g) == baseProjectionScale g * zoom g.
Proof.
  vm_compute. split; intros H; [apply H; reflexivity | discriminate H].
Qed.

Lemma zoom_factor_at_least_one_witness :
  let calls := [ call_zoomOn "Europe" zoom_undefined None None;
                 call_frame 0 0.5;
                 call_resize {| width := 400; height := 300 |};
                 call_setZoom (zoom_number 3);
                 call_zoomOnCountry "russia" zoom_auto None None;
                 call_frame 2 1 ] in
  let g := run calls (newGlobe defaultSettings Demo.box) in
  let g2 := run (frames [(2%nat, 0.5); (3%nat, 0.25)] ++ [call_frame (nextSession g) 1])
                (exec (call (call_setZoom (zoom_number 2))) g) in
  ~ baseProjectionScale g == 0
  /\ 1 <= zoom g
  /\ 1 <= calculateZoomLevelForFullscreenCountry "russia" Demo.russia g
  /\ scale (projection g2) == baseProjectionScale g2 * zoom g2.
Proof.
  intros calls g g2.
  assert (Hbox : viewport_ok Demo.box) by (vm_compute; discriminate).
  assert (Hresizes : Forall resize_ok calls).
  { repeat first
      [ apply Forall_nil
      | apply Forall_cons; [first [exact I | vm_compute; discriminate] |] ]. }
  assert (Hkeys : Forall own_keys_only calls).
  { repeat first [ apply Forall_nil | apply Forall_cons; [own_keys |] ]. }
  assert (Hcalls : Forall zoom_argument_ok calls).
  { repeat first
      [ apply Forall_nil
      | apply Forall_cons; [simpl; first [exact I | unfold Qle; simpl; lia] |] ]. }
  destruct (@zoom_factor_at_least_one Demo.atlas Demo.d3 demo_laws defaultSettings
              Demo.box calls Hbox Hresizes Hkeys Hcalls) as (Hb & Hz & Hlevel & Hscale).
  split; [exact Hb|]. split; [exact Hz|]. split.
  { apply Hlevel. vm_compute. intuition discriminate. }
  assert (Hkey : own_keys_only (call_setZoom (zoom_number 2))) by own_keys.
  assert (Hreq : exists plan, requested (call_setZoom (zoom_number 2)) g = Some plan
                              /\ plan_scale plan <> None).
  { eexists. split; [vm_compute; reflexivity | discriminate]. }
  destruct Hreq as (plan & Hreq & Hsc).
  exact (Hscale (call_setZoom (zoom_number 2)) plan [(2%nat, 0.5); (3%nat, 0.25)]
           Hkey Hreq Hsc).
Defined.

(** A resize that falls between a request and the last callback of its
    session leaves the scale at the old base scale times the zoom factor: in
    a holder of 800 by 600 that becomes 400 by 300 during [setZoom(3)], the
    scale ends at 900 while the base scale is 150. *)
Example resize_during_session_leaves_old_scale :
  let g := run [ call_setZoom (zoom_number 3);
                 call_resize {| width := 400; height := 300 |};
                 call_frame 0 1 ] (newGlobe defaultSettings Demo.box) in
  scale (projection g) == 900 /\ baseProjectionScale g == 150 /\ zoom g == 3
  /\ ~ scale (projection g) == baseProjectionScale g * zoom g.
Proof.
  vm_compute. repeat split; try reflexivity. intros H. discriminate H.
Qed.

Lemma highlightRegion_as_highlightCountry_each_witness :
  let g := newGlobe defaultSettings Demo.box in
  let members := ["Belgium"; "France"; "Germany"; "Luxembourg"] in
  let one_by_one :=
    forEach members (fun country => highlightCountry country (Some "red") true) in
  lookup "western europe" REGION_COUNTRY_MAP = Some members
  /\ highlightedCountries (exec (highlightRegion "western europe" (Some "red")) g)
     = highlightedCountries (exec one_by_one g)
  /\ renders (canvasContext (exec (highlightRegion "western europe" (Some "red")) g))
     = S (renders (canvasContext g)).
Proof.
  intros g members one_by_one.
  assert (E : lookup "western europe" REGION_COUNTRY_MAP = Some members) by reflexivity.
  destruct (@highlightRegion_as_highlightCountry_each Demo.atlas
              "western europe" members (Some "red") g E) as (_ & _ & Hl & Hr & _).
  repeat split; assumption.
Defined.

(** One by one, the three members of the region that are in the atlas cost
    three renders; the region call costs one. *)
Example western_europe_renders :
  let g := newGlobe defaultSettings Demo.box in
  let one_by_one :=
    forEach ["Belgium"; "France"; "Germany"; "Luxembourg"]
            (fun country => highlightCountry country None true) in
  map entry_name (highlightedCountries (exec (highlightRegion "western europe" None) g))
  = ["belgium"; "france"; "germany"]
  /\ renders (canvasContext g) = 1%nat
  /\ renders (canvasContext (exec (highlightRegion "western europe" None) g)) = 2%nat
  /\ renders (canvasContext (exec one_by_one g)) = 4%nat.
Proof. vm_compute. repeat split. Qed.

Lemma auto_zoom_level_witness :
  let g := newGlobe defaultSettings Demo.box in
  let g1 := exec (zoomOnCountry "germany" zoom_auto None None) g in
  getCountryGeoJson "germany" = Some Demo.germany
  /\ ~ baseProjectionScale g == 0
  /\ zoom (exec (frame (nextSession g) 0.5) g1)
     = calculateZoomLevelForFullscreenCountry "germany" Demo.germany g
  /\ calculateZoomLevelForFullscreenCountry "germany" Demo.germany g = 14.
Proof.
  intros g g1.
  assert (E : getCountryGeoJson "germany" = Some Demo.germany) by reflexivity.
  assert (B : ~ baseProjectionScale g == 0) by (vm_compute; discriminate).
  destruct (@auto_zoom_level Demo.atlas Demo.d3 g "germany" Demo.germany None None 0.5 E B)
    as (_ & Hz & Hv).
  split; [exact E|]. split; [exact B|]. split; [exact Hz | exact (proj1 Hv)].
Defined.

(** The table of predefined levels is consulted with the name as passed:
    "Germany" resolves to the same country as "germany" but is not a key of
    the table, and gets the computed level. *)
Example auto_zoom_is_case_sensitive :
  let g := newGlobe defaultSettings Demo.box in
  getCountryGeoJson "Germany" = getCountryGeoJson "germany"
  /\ calculateZoomLevelForFullscreenCountry "germany" Demo.germany g == 14
  /\ ~ calculateZoomLevelForFullscreenCountry "Germany" Demo.germany g == 14.
Proof. vm_compute. repeat split. discriminate. Qed.



(** A zoom to France requested while a zoom to Germany is under way: a
    later callback of the Germany session changes nothing, and the globe
    ends at the negated centroid of France and five times the base scale. *)
Example france_after_germany :
  let g := run [ call_zoomOnCountry "germany" (zoom_number 14) None None;
                 call_frame 0 0.5 ] (newGlobe defaultSettings Demo.box) in
  let g1 := exec (zoomOnCountry "france" (zoom_number 5) None None) g in
  let g2 := run [call_frame 0 0.75; call_frame 1 0.5; call_frame 0 1; call_frame 1 1] g1 in
  exec (frame 0 0.75) g1 = g1
  /\ same_rotation (geoCentroid (Some Demo.france)) (1.5, 46.5)
  /\ same_rotation (rotate (projection g2)) (-1.5, -46.5)
  /\ baseProjectionScale g2 == 300
  /\ scale (projection g2) == 1500
  /\ zoom g2 == 5.
Proof. vm_compute. repeat split. Qed.

(** Why the ids have to identify the countries: in an atlas with two
    countries under one id, highlighting the first makes the second count
    as highlighted, and unhighlighting the second removes nothing. *)
Example shared_id_blocks_unhighlight :
  let g := @newGlobe Demo.twins Demo.d3 defaultSettings Demo.box in
  let g1 := exec (@highlightCountry Demo.twins "north" None true) g in
  let g2 := exec (@highlightCountry Demo.twins "south" None true) g1 in
  let g3 := exec (@unhighlightCountry Demo.twins "south" true) g2 in
  map entry_name (highlightedCountries g2) = ["north"]
  /\ @isCountryHighlighted Demo.twins "south" g2 = true
  /\ @isCountryHighlighted Demo.twins "south" g3 = true.
Proof. vm_compute. repeat split. Qed.

(** ** More runs on the small atlas *)

Lemma highlightCountry_twice_witness :
  let g := newGlobe defaultSettings Demo.box in
  let g1 := exec (highlightCountry "Germany" (Some "red") true) g in
  toLowerCase "Germany" = toLowerCase "GERMANY"
  /\ highlightCountry "GERMANY" (Some "blue") true g1 = (Normal tt, g1).
Proof.
  intros g g1. split; [reflexivity|].
  exact (@highlightCountry_twice Demo.atlas "Germany" "GERMANY" (Some "red")
           (Some "blue") true true g eq_refl).
Defined.

(** The second call leaves the one entry in the color of the first. *)
Example second_color_is_ignored :
  let g := newGlobe defaultSettings Demo.box in
  let g2 := run [ call_highlightCountry "Germany" (Some "red") true;
                  call_highlightCountry "GERMANY" (Some "blue") true;
                  call_highlight "france" (Some "") ] g in
  map (fun e => (entry_name e, entry_color e)) (highlightedCountries g2)
  = [("germany", "red"); ("france", "#F90")]
  /\ renders (canvasContext g2) = 3%nat.
Proof. vm_compute. split; reflexivity. Qed.

Lemma highlighted_entries_are_countries_witness :
  let g := run [ call_highlightRegion "western europe" None;
                 call_unhighlight "FRANCE";
                 call_zoomOn "germany" zoom_auto None None ]
               (newGlobe defaultSettings Demo.box) in
  NoDup (map entry_id (highlightedCountries g))
  /\ NoDup (map entry_name (highlightedCountries g))
  /\ map entry_name (highlightedCountries g) = ["belgium"; "germany"].
Proof.
  intros g.
  assert (Hreach : reachable (newGlobe defaultSettings Demo.box) g).
  { apply reachable_run. constructor. }
  destruct (@highlighted_entries_are_countries Demo.atlas Demo.d3 defaultSettings
              Demo.box g Hreach) as (Hid & Hname & _).
  split; [exact Hid|]. split; [exact Hname | reflexivity].
Defined.

Lemma highlight_unhighlight_restores_witness :
  let g := run [ call_highlightCountry "france" (Some "red") true;
                 call_highlightCountry "russia" None true ]
               (newGlobe defaultSettings Demo.box) in
  isCountryHighlighted "Germany" g = false
  /\ highlightedCountries
       (exec (unhighlightCountry "GERMANY" true)
             (exec (highlightCountry "Germany" (Some "blue") true) g))
     = highlightedCountries g.
Proof.
  intros g.
  assert (Hreach : reachable (newGlobe defaultSettings Demo.box) g).
  { apply reachable_run. constructor. }
  assert (Hnot : isCountryHighlighted "Germany" g = false) by reflexivity.
  split; [exact Hnot|].
  exact (@highlight_unhighlight_restores Demo.atlas Demo.d3 defaultSettings Demo.box g
           "Germany" "GERMANY" (Some "blue") true true Hreach Hnot eq_refl).
Defined.

Lemma unhighlightRegion_clears_members_witness :
  let g := run [ call_highlightCountry "russia" None true;
                 call_highlightRegion "western europe" (Some "red") ]
               (newGlobe defaultSettings Demo.box) in
  let g' := exec (unhighlightRegion "western europe") g in
  renders (canvasContext g') = S (renders (canvasContext g))
  /\ isCountryHighlighted "France" g' = false
  /\ map entry_name (highlightedCountries g') = ["russia"].
Proof.
  intros g g'.
  assert (Hreach : reachable (newGlobe defaultSettings Demo.box) g).
  { apply reachable_run. constructor. }
  destruct (@unhighlightRegion_clears_members Demo.atlas Demo.d3 defaultSettings
              Demo.box g "western europe" ["Belgium"; "France"; "Germany"; "Luxembourg"]
              demo_ids Hreach eq_refl) as (Hr & Hm).
  split; [exact Hr|]. split; [|reflexivity].
  apply (Hm "France"); [simpl; tauto | discriminate].
Defined.

Lemma highlighting_leaves_navigation_alone_witness :
  let g := run [ call_zoomOnCountry "germany" (zoom_number 14) None None;
                 call_frame 0 0.5 ] (newGlobe defaultSettings Demo.box) in
  let g' := exec (call (call_highlightRegion "western europe" None)) g in
  projection g' = projection g
  /\ zoom g' = zoom g
  /\ session g' = session g.
Proof.
  intros g g'.
  destruct (@highlighting_leaves_navigation_alone Demo.atlas Demo.d3
              (call_highlightRegion "western europe" None) g eq_refl)
    as (Hp & _ & Hz & _ & Hs & _).
  split; [exact Hp|]. split; [exact Hz | exact Hs].
Defined.

Lemma navigation_leaves_highlights_alone_witness :
  let g := run [ call_highlightRegion "western europe" None ]
               (newGlobe defaultSettings Demo.box) in
  let g' := exec (call (call_resize {| width := 400; height := 300 |})) g in
  highlightedCountries g' = highlightedCountries g
  /\ isCountryHighlighted "belgium" g' = isCountryHighlighted "belgium" g.
Proof.
  intros g g'.
  destruct (@navigation_leaves_highlights_alone Demo.atlas Demo.d3
              (call_resize {| width := 400; height := 300 |}) g eq_refl) as (Hl & Hi).
  split; [exact Hl | exact (Hi "belgium")].
Defined.

Lemma resize_recentres_witness :
  let g := run [ call_zoomOn "Southern Europe" zoom_undefined None None;
                 call_zoomOnCountry "France" (zoom_number 5) (Some 2) None;
                 call_frame 1 1 ] (newGlobe defaultSettings Demo.box) in
  let g' := exec (resize {| width := 400; height := 300 |}) g in
  zoomedCountry g = Some "France"
  /\ zoom g' = zoom g
  /\ session g' = session g
  /\ renders (canvasContext g') = S (renders (canvasContext g))
  /\ exists f,
       getCountryGeoJson "France" = Some f
       /\ projection g'
          = {| rotate := (- fst (geoCentroid (Some f)), - snd (geoCentroid (Some f)));
               scale := fitExtentScale ((0, 0), (400, 300)) Sphere * zoom g |}.
Proof.
  intros g g'.
  assert (Hreach : reachable (newGlobe defaultSettings Demo.box) g).
  { apply reachable_run. constructor. }
  assert (Ez : zoomedCountry g = Some "France") by reflexivity.
  pose proof (@resize_recentres Demo.atlas Demo.d3 defaultSettings Demo.box g
                {| width := 400; height := 300 |} Hreach) as R.
  cbv zeta in R. fold g' in R.
  destruct R as (_ & _ & Hz & _ & Hs & _ & Hr & Hp).
  rewrite Ez in Hp.
  split; [exact Ez|]. split; [exact Hz|]. split; [exact Hs|]. split; [exact Hr | exact Hp].
Defined.

(** The zoom to France was requested with an offset of 2 degrees and ended
    2 degrees off its centroid; the resize puts the centroid itself in the
    middle. *)
Example resize_drops_the_offset :
  let g := run [ call_zoomOnCountry "France" (zoom_number 5) (Some 2) None;
                 call_frame 0 1 ] (newGlobe defaultSettings Demo.box) in
  let g' := exec (resize {| width := 400; height := 300 |}) g in
  same_rotation (rotate (projection g)) (-3.5, -46.5)
  /\ same_rotation (rotate (projection g')) (-1.5, -46.5)
  /\ scale (projection g) == 1500
  /\ scale (projection g') == 750.
Proof. vm_compute. repeat split. Qed.

Lemma zoomOn_auto_uses_table_witness :
  let g := newGlobe defaultSettings Demo.box in
  let g' := exec (zoomOn "GERMANY" zoom_auto None None) g in
  lookup (toLowerCase "GERMANY") regionToZoomFunction = None
  /\ getCountryGeoJson "GERMANY" = Some Demo.germany
  /\ lookup (toLowerCase "GERMANY") predefinedFillZoomLevels = Some 14
  /\ session g'
     = Some {| session_id := nextSession g;
               session_state :=
                 Scheduled (centerOnCountry_factory Demo.germany (zoom_number 14)
                              (or_zero None) (or_zero None)) |}
  /\ zoomedCountry g' = Some (toLowerCase "GERMANY").
Proof.
  intros g g'.
  assert (H1 : lookup (toLowerCase "GERMANY") regionToZoomFunction = None) by reflexivity.
  assert (H2 : getCountryGeoJson "GERMANY" = Some Demo.germany) by reflexivity.
  assert (H3 : lookup (toLowerCase "GERMANY") predefinedFillZoomLevels = Some 14)
    by reflexivity.
  destruct (@zoomOn_auto_uses_table Demo.atlas Demo.d3 "GERMANY" zoom_auto None None
              Demo.germany 14 g (or_introl eq_refl) H1 H2 H3) as (Hs & Hz & _).
  split; [exact H1|]. split; [exact H2|]. split; [exact H3|].
  split; [exact Hs | exact Hz].
Defined.

Lemma resetZoom_returns_to_base_scale_witness :
  let g := run [ call_zoomOnCountry "germany" (zoom_number 14) None None;
                 call_frame 0 0.5 ] (newGlobe defaultSettings Demo.box) in
  let n := nextSession g in
  let g2 := run (frames [(0%nat, 0.75); (1%nat, 0.5)] ++ [call_frame n 1])
                (exec resetZoom g) in
  ~ zoom g == 1
  /\ scale (projection g2) == baseProjectionScale g
  /\ zoom g2 = 1
  /\ rotate (projection g2) = rotate (projection g).
Proof.
  intros g n g2.
  assert (Hz : ~ zoom g == 1) by (vm_compute; discriminate).
  destruct (@resetZoom_returns_to_base_scale Demo.atlas Demo.d3 demo_laws g
              [(0%nat, 0.75); (1%nat, 0.5)] Hz) as (Hs & Hzoom & Hr & _).
  split; [exact Hz|]. split; [exact Hs|]. split; [exact Hzoom | exact Hr].
Defined.

Lemma centerOnCountry_keeps_zoom_witness :
  let g := run [ call_setZoom (zoom_number 3); call_frame 0 1 ]
               (newGlobe defaultSettings Demo.box) in
  let n := nextSession g in
  let g2 := run (frames [(1%nat, 0.5)] ++ [call_frame n 1])
                (exec (centerOnCountry "France") g) in
  lookup (toLowerCase "France") regionToZoomFunction = None
  /\ getCountryGeoJson "France" = Some Demo.france
  /\ same_rotation (rotate (projection g2))
       (- fst (geoCentroid (Some Demo.france)) - 0,
        - snd (geoCentroid (Some Demo.france)) - 0)
  /\ zoom g2 = zoom g
  /\ scale (projection g2) == baseProjectionScale g * zoom g.
Proof.
  intros g n g2.
  assert (H1 : lookup (toLowerCase "France") regionToZoomFunction = None) by reflexivity.
  assert (H2 : getCountryGeoJson "France" = Some Demo.france) by reflexivity.
  destruct (@centerOnCountry_keeps_zoom Demo.atlas Demo.d3 demo_laws "France"
              Demo.france g [(1%nat, 0.5)] H1 H2) as (Hr & Hz & Hs & _).
  split; [exact H1|]. split; [exact H2|]. split; [exact Hr|].
  split; [exact Hz | exact Hs].
Defined.


Lemma highlightRegion_highlights_members_witness :
  let g := run [ call_highlightCountry "france" (Some "red") true ]
               (newGlobe defaultSettings Demo.box) in
  let g' := exec (highlightRegion "western europe" (Some "blue")) g in
  lookup "western europe" REGION_COUNTRY_MAP
  = Some ["Belgium"; "France"; "Germany"; "Luxembourg"]
  /\ (exists added, highlightedCountries g' = highlightedCountries g ++ added)
  /\ isCountryHighlighted "Germany" g' = true.
Proof.
  intros g g'.
  assert (H1 : lookup "western europe" REGION_COUNTRY_MAP
               = Some ["Belgium"; "France"; "Germany"; "Luxembourg"]) by reflexivity.
  destruct (@highlightRegion_highlights_members Demo.atlas "western europe"
              ["Belgium"; "France"; "Germany"; "Luxembourg"] (Some "blue") g H1)
    as (Ha & Hm).
  split; [exact H1|]. split; [exact Ha|].
  apply (Hm "Germany" Demo.germany); [simpl; tauto | reflexivity].
Defined.

Lemma no_call_throws_witness :
  own_keys_only (call_highlight "atlantis" (Some "red"))
  /\ fst (call (call_highlight "atlantis" (Some "red"))
               (run [call_zoomOn "Europe" zoom_auto None None]
                    (newGlobe defaultSettings Demo.box)))
     = Normal tt.
Proof.
  assert (Hkeys : own_keys_only (call_highlight "atlantis" (Some "red"))) by own_keys.
  split; [exact Hkeys|].
  exact (@no_call_throws Demo.atlas Demo.d3 (call_highlight "atlantis" (Some "red"))
           (run [call_zoomOn "Europe" zoom_auto None None]
                (newGlobe defaultSettings Demo.box)) Hkeys).
Defined.
